(** * websiteCheck: a shallow embedding of [image_checker.py]

    The program fetches one page, checks every [<img>] it finds, mails a
    summary of the broken ones and sleeps for an hour.  Everything it does
    goes through a library call (requests, BeautifulSoup, PIL, smtplib,
    logging, time), so the embedding is a state-and-exception monad over an
    abstract outside world: each library call is an oracle that reads and
    advances the world, and every call the program makes is appended to a
    trace of events.

    Python exceptions are the subclasses of [Exception] that library calls
    raise; an exception is represented by its message [str(e)].
    Asynchronous interrupts ([KeyboardInterrupt]) are outside the model. *)

From Stdlib Require Import ZArith Ascii String List Bool Lia.
From stdpp Require Import base gmap strings pretty.

Local Open Scope Z_scope.
Local Open Scope list_scope.

(** ** Python values *)

(** [str(e)] of a raised exception. *)
Definition exn := string.

(** The newline character of the f-strings. *)
Definition LF : string := String "010"%char EmptyString.

(** [s.startswith(p)]. *)
Definition startswith (s p : string) : bool := String.prefix p s.

(** [s.startswith((p1, ..., pn))]. *)
Definition startswith_any (s : string) (ps : list string) : bool :=
  existsb (startswith s) ps.

(** Truthiness of an [Optional[str]], of a [str], of an [Optional[int]] and
    of a list. *)
Definition truthy_str (s : string) : bool :=
  match s with EmptyString => false | String _ _ => true end.

Definition truthy_opt_str (o : option string) : bool :=
  match o with Some s => truthy_str s | None => false end.

Definition truthy_opt_int (o : option Z) : bool :=
  match o with Some z => negb (z =? 0) | None => false end.

Definition truthy_list {A} (l : list A) : bool :=
  match l with [] => false | _ :: _ => true end.

(** [f"{v}"] for an [Optional[int]]. *)
Definition fmt_int (o : option Z) : string :=
  match o with Some z => pretty z | None => "None" end.

(** ** Library data *)

(** [requests.Response]: the fields the program reads. *)
Record Response := { status_code : Z; text : string; content : string }.

(** A decoded [PIL.Image]: its [size] and what [verify()] does
    ([None]: returns, [Some e]: raises [e]). *)
Record PILImage := { size : Z * Z; verify : option exn }.

(** A BeautifulSoup tag: its attribute dictionary. *)
Record Tag := { attrs : gmap string string }.

(** [tag.get(key, default)]. *)
Definition Tag_get (t : Tag) (key dflt : string) : string :=
  default dflt (attrs t !! key).

(** [MIMEText(payload, subtype)] and the [MIMEMultipart] message. *)
Record MIMEText := { payload : string; subtype : string }.

Record Message := {
  msg_From : option string;
  msg_To : option string;
  msg_Subject : string;
  msg_parts : list MIMEText
}.

(** The calls made on an [smtplib.SMTP] object. *)
Inductive smtp_op :=
| SMTP_connect (host : string) (port : Z)
| SMTP_starttls
| SMTP_login (user password : option string)
| SMTP_send_message (msg : Message)
| SMTP_quit.

Inductive level := INFO | WARNING | ERROR.

(** The trace: every library call with an effect outside the process. *)
Inductive event :=
| EGet (url : string)                          (* requests.get(url, timeout=10) *)
| ELog (lvl : level) (msg : string)            (* logging.info/warning/error *)
| ESmtp (op : smtp_op) (raised : option exn)   (* an SMTP call and its outcome *)
| ESleep (secs : Z).                           (* time.sleep(secs) *)

(** The outside world and the libraries, as oracles. *)
Class Libs := {
  World : Type;
  (** [os.getenv], after [load_dotenv()] *)
  os_environ : gmap string string;
  (** [requests.get(url, timeout=10)] *)
  requests_get : string -> World -> (exn + Response) * World;
  (** [Image.open(BytesIO(content))] *)
  Image_open : string -> exn + PILImage;
  (** [BeautifulSoup(text, 'html.parser').find_all('img')], in document order *)
  soup_find_all_img : string -> exn + list Tag;
  (** [requests.compat.urljoin(base, url)] *)
  urljoin : string -> string -> exn + string;
  (** one call on the SMTP connection *)
  smtp : smtp_op -> World -> option exn * World;
  (** [time.sleep(secs)] *)
  time_sleep : Z -> World -> World
}.

(** A broken-image record: [(img_url, width, height)]. *)
Definition broken_record : Type := string * option Z * option Z.

(** The result of the per-image check: [(result, width, height)], where
    [result] is [True], [False] or [None]. *)
Definition check_result : Type := option bool * option Z * option Z.

Definition MIN_WIDTH : Z := 200.
Definition MIN_HEIGHT : Z := 200.

(** [self] of [ImageChecker]. *)
Record ImageChecker := {
  url : string;
  email_sender : option string;
  email_password : option string;
  email_receiver : option string;
  smtp_server : string;
  smtp_port : Z
}.

(** The emails of a trace: the messages whose [send_message] returned. *)
Fixpoint sent_emails (evs : list event) : list Message :=
  match evs with
  | [] => []
  | ESmtp (SMTP_send_message m) None :: evs' => m :: sent_emails evs'
  | _ :: evs' => sent_emails evs'
  end.

Definition is_smtp (e : event) : bool :=
  match e with ESmtp _ _ => true | _ => false end.

Section Program.

Context {L : Libs}.

(** ** The monad *)

Record state := { world : World; events : list event }.

Definition M (A : Type) : Type := state -> (exn + A) * state.

Definition ret {A} (a : A) : M A := fun s => (inr a, s).

Definition raise {A} (e : exn) : M A := fun s => (inl e, s).

Definition bind {A B} (m : M A) (k : A -> M B) : M B := fun s =>
  match m s with
  | (inr a, s') => k a s'
  | (inl e, s') => (inl e, s')
  end.

(** [try: m except Exception as e: h e]. *)
Definition try_except {A} (m : M A) (h : exn -> M A) : M A := fun s =>
  match m s with
  | (inr a, s') => (inr a, s')
  | (inl e, s') => h e s'
  end.

(** A pure library call that returns or raises. *)
Definition lift {A} (r : exn + A) : M A := fun s => (r, s).

Definition emit (e : event) : M unit := fun s =>
  (inr tt, {| world := world s; events := events s ++ [e] |}).

Notation "'let*' x ':=' m 'in' k" := (bind m (fun x => k))
  (at level 10, x pattern, m at level 100, k at level 200).

(** [for x in xs: acc = body(acc, x)]; an exception leaves the loop. *)
Fixpoint for_each {A B} (xs : list A) (acc : B) (body : B -> A -> M B) : M B :=
  match xs with
  | [] => ret acc
  | x :: xs' => let* acc' := body acc x in for_each xs' acc' body
  end.

(** ** Library calls in the monad *)

Definition logging_info (msg : string) : M unit := emit (ELog INFO msg).
Definition logging_warning (msg : string) : M unit := emit (ELog WARNING msg).
Definition logging_error (msg : string) : M unit := emit (ELog ERROR msg).

Definition get (u : string) : M Response := fun s =>
  let '(r, w) := requests_get u (world s) in
  (r, {| world := w; events := events s ++ [EGet u] |}).

Definition img_verify (img : PILImage) : M unit :=
  match verify img with Some e => raise e | None => ret tt end.

Definition smtp_call (op : smtp_op) : M unit := fun s =>
  let '(r, w) := smtp op (world s) in
  let s' := {| world := w; events := events s ++ [ESmtp op r] |} in
  match r with Some e => (inl e, s') | None => (inr tt, s') end.

(** [with smtplib.SMTP(host, port) as server: body].  Leaving the block,
    normally or by an exception, runs [__exit__], which sends QUIT; an
    exception of QUIT replaces the one of the body. *)
Definition with_SMTP (host : string) (port : Z) (body : M unit) : M unit :=
  let* _ := smtp_call (SMTP_connect host port) in
  fun s =>
    match body s with
    | (inr _, s1) => smtp_call SMTP_quit s1
    | (inl e, s1) =>
        match smtp_call SMTP_quit s1 with
        | (inr _, s2) => (inl e, s2)
        | (inl e', s2) => (inl e', s2)
        end
    end.

Definition sleep (secs : Z) : M unit := fun s =>
  (inr tt, {| world := time_sleep secs (world s);
              events := events s ++ [ESleep secs] |}).

(** ** [ImageChecker] *)

Definition config_error : exn :=
  "Email configuration is incomplete. Please check your .env file.".

(** [ImageChecker.__init__]. *)
Definition ImageChecker_init : exn + ImageChecker :=
  let self :=
    {| url := "https://tutor4science.com/";
       email_sender := os_environ !! "EMAIL_SENDER";
       email_password := os_environ !! "EMAIL_APP_PASSWORD";
       email_receiver := os_environ !! "EMAIL_RECEIVER";
       smtp_server := "smtp.gmail.com";
       smtp_port := 587 |} in
  if negb (forallb truthy_opt_str
             [email_sender self; email_password self; email_receiver self])
  then inl config_error
  else inr self.

Definition is_base64_image (self : ImageChecker) (img_url : string) : bool :=
  startswith img_url "data:image".

(** The [try] block of [check_image_url]. *)
Definition check_image_url_try (self : ImageChecker) (img_url : string)
  : M check_result :=
  if is_base64_image self img_url then ret (Some true, None, None)
  else
    let* response := get img_url in
    if status_code response =? 200 then
      let* img := lift (Image_open (content response)) in
      let '(width, height) := size img in
      if (width >=? MIN_WIDTH) && (height >=? MIN_HEIGHT) then
        let* _ := img_verify img in
        ret (Some true, Some width, Some height)
      else ret (None, Some width, Some height)
    else ret (Some false, None, None).

Definition check_image_url (self : ImageChecker) (img_url : string)
  : M check_result :=
  try_except (check_image_url_try self img_url)
    (fun e =>
       let* _ := logging_error
                   ("Error checking image " +:+ img_url +:+ ": " +:+ e) in
       ret (Some false, None, None)).

(** ** The notification *)

Definition body_header : string :=
  "The following images are not rendering properly (only main content images are checked):"
  +:+ LF +:+ LF.

Definition record_line (r : broken_record) : string :=
  let '(img, width, height) := r in
  "- " +:+ img +:+ " (size: " +:+ fmt_int width +:+ "x" +:+ fmt_int height
  +:+ ")" +:+ LF.

(** [body = header; for r in broken_images: body += line]. *)
Definition email_body (broken_images : list broken_record) : string :=
  fold_left (fun body r => body +:+ record_line r) broken_images body_header.

Definition compose (self : ImageChecker) (broken_images : list broken_record)
  : Message :=
  {| msg_From := email_sender self;
     msg_To := email_receiver self;
     msg_Subject := "Broken Images Found on " +:+ url self;
     msg_parts := [ {| payload := email_body broken_images;
                       subtype := "plain" |} ] |}.

Definition send_email_notification (self : ImageChecker)
    (broken_images : list broken_record) : M unit :=
  if negb (truthy_list broken_images) then ret tt
  else
    try_except
      (let msg := compose self broken_images in
       let* _ :=
         with_SMTP (smtp_server self) (smtp_port self)
           (let* _ := smtp_call SMTP_starttls in
            let* _ := smtp_call
                        (SMTP_login (email_sender self) (email_password self)) in
            smtp_call (SMTP_send_message msg)) in
       logging_info "Email notification sent successfully")
      (fun e => logging_error ("Error sending email: " +:+ e)).

(** ** One cycle *)

(** Lines 109-111: relative sources are joined to the page URL. *)
Definition resolve_src (self : ImageChecker) (img_url : string) : M string :=
  if negb (startswith_any img_url ["http://"; "https://"; "data:image"])
  then lift (urljoin (url self) img_url)
  else ret img_url.

(** The guard of line 114. *)
Definition is_broken_main (r : check_result) : bool :=
  let '(result, width, height) := r in
  match result with
  | Some false =>
      truthy_opt_int width && truthy_opt_int height &&
      match width, height with
      | Some w, Some h => (w >=? MIN_WIDTH) && (h >=? MIN_HEIGHT)
      | _, _ => false
      end
  | _ => false
  end.

(** Lines 113-119: check one resolved URL and record it if the guard holds. *)
Definition check_and_record (self : ImageChecker)
    (broken_images : list broken_record) (img_url : string)
  : M (list broken_record) :=
  let* r := check_image_url self img_url in
  let '(result, width, height) := r in
  if is_broken_main r then
    let broken_images := broken_images ++ [(img_url, width, height)] in
    let* _ := logging_warning
                ("Broken main image found: " +:+ img_url +:+ " (size: "
                 +:+ fmt_int width +:+ "x" +:+ fmt_int height +:+ ")") in
    ret broken_images
  else ret broken_images.

(** The body of the [for img in images] loop. *)
Definition for_body (self : ImageChecker)
    (broken_images : list broken_record) (img : Tag)
  : M (list broken_record) :=
  let img_url := Tag_get img "src" "" in
  if negb (truthy_str img_url) then ret broken_images
  else
    let* img_url := resolve_src self img_url in
    check_and_record self broken_images img_url.

Definition all_ok_line : string :=
  "All main content images are rendering properly".

(** The [try] block of [check_website_images]. *)
Definition check_website_images_try (self : ImageChecker)
  : M (list broken_record) :=
  let* response := get (url self) in
  let* images := lift (soup_find_all_img (text response)) in
  let* broken_images := for_each images [] (for_body self) in
  let* _ :=
    if truthy_list broken_images
    then send_email_notification self broken_images
    else logging_info all_ok_line in
  ret broken_images.

Definition check_website_images (self : ImageChecker)
  : M (list broken_record) :=
  try_except (check_website_images_try self)
    (fun e =>
       let* _ := logging_error ("Error checking website: " +:+ e) in
       ret []).

(** ** The loop *)

(** [cycles] iterations of [while True]. *)
Fixpoint main_loop (checker : ImageChecker) (cycles : nat) : M unit :=
  match cycles with
  | O => ret tt
  | S n =>
      let* _ := logging_info "Starting image check..." in
      let* _ := check_website_images checker in
      let* _ := sleep 3600 in
      main_loop checker n
  end.

(** [main], with the loop cut after [cycles] iterations. *)
Definition main (cycles : nat) : M unit :=
  try_except
    (let* checker := lift ImageChecker_init in
     main_loop checker cycles)
    (fun e => logging_error ("Unexpected error: " +:+ e)).

End Program.

(** ** Specifications of monadic computations *)

Section Specs.

Context {L : Libs}.

(** [run_spec m Q]: from every state, [m] only appends events to the trace,
    and [Q] holds of the appended events and of the outcome. *)
Definition run_spec {A} (m : M A) (Q : list event -> exn + A -> Prop) : Prop :=
  forall s, exists new,
    events (snd (m s)) = events s ++ new /\ Q new (fst (m s)).

(** [m] returns from every state. *)
Definition returns {A} (m : M A) : Prop :=
  forall s, exists a s', m s = (inr a, s').

(** The events of checking images: fetches and error lines. *)
Definition check_event (e : event) : Prop :=
  match e with
  | EGet _ | ELog ERROR _ => True
  | _ => False
  end.

(** What one run of the [try] block of [check_website_images] leaves. *)
Definition cycle_try_post (new : list event) (r : exn + list broken_record)
  : Prop :=
  match r with
  | inr l =>
      l = [] /\
      exists new', new = new' ++ [ELog INFO all_ok_line] /\
                   Forall check_event new'
  | inl _ => Forall check_event new
  end.

(** What a check result looks like. *)
Definition result_shape (r : check_result) : Prop :=
  r = (Some true, None, None) \/
  (exists w h, r = (Some true, Some w, Some h) /\
               MIN_WIDTH <= w /\ MIN_HEIGHT <= h) \/
  (exists w h, r = (None, Some w, Some h) /\
               (w < MIN_WIDTH \/ h < MIN_HEIGHT)) \/
  r = (Some false, None, None).

(** The state after one more event. *)
Definition logged_after (s : state) (e : event) : state :=
  {| world := world s; events := events s ++ [e] |}.

(** The lines the handlers and the notification log. *)
Definition image_error_line (img_url : string) (e : exn) : event :=
  ELog ERROR ("Error checking image " +:+ img_url +:+ ": " +:+ e).

Definition website_error_line (e : exn) : event :=
  ELog ERROR ("Error checking website: " +:+ e).

Definition email_error_line (e : exn) : event :=
  ELog ERROR ("Error sending email: " +:+ e).

Definition email_sent_line : event :=
  ELog INFO "Email notification sent successfully".

Definition startup_error_line (e : exn) : event :=
  ELog ERROR ("Unexpected error: " +:+ e).

(** The lines of the records, one after the other. *)
Definition record_lines (broken_images : list broken_record) : string :=
  fold_right (fun line rest => line +:+ rest) "" (map record_line broken_images).

(** A configuration value is present and non-empty. *)
Definition present (key : string) : Prop :=
  exists v, os_environ !! key = Some v /\ v <> "".

End Specs.

(** ** What a cycle, a notification and the loop leave in the trace *)

Section Plans.

Context {L : Libs}.

(** The URLs a trace fetched, in order. *)
Fixpoint fetched (evs : list event) : list string :=
  match evs with
  | [] => []
  | EGet u :: evs' => u :: fetched evs'
  | _ :: evs' => fetched evs'
  end.

(** The sleeps of a trace, in order. *)
Fixpoint sleeps (evs : list event) : list Z :=
  match evs with
  | [] => []
  | ESleep secs :: evs' => secs :: sleeps evs'
  | _ :: evs' => sleeps evs'
  end.

(** Lines 109-111 as a value: the URL a non-empty source stands for, or the
    exception of [urljoin]. *)
Definition resolved (self : ImageChecker) (src : string) : exn + string :=
  if negb (startswith_any src ["http://"; "https://"; "data:image"])
  then urljoin (url self) src
  else inr src.

(** The image URLs the loop of lines 104-119 fetches on [images], in order,
    and the exception that ends it, if any: sources that are missing or
    empty and inline-encoded URLs are passed over, and the first source
    that [urljoin] rejects ends the walk. *)
Fixpoint fetch_plan (self : ImageChecker) (images : list Tag)
  : list string * option exn :=
  match images with
  | [] => ([], None)
  | img :: rest =>
      let src := Tag_get img "src" "" in
      if negb (truthy_str src) then fetch_plan self rest
      else
        match resolved self src with
        | inl e => ([], Some e)
        | inr u =>
            let '(us, r) := fetch_plan self rest in
            (if is_base64_image self u then us else u :: us, r)
        end
  end.

(** The URLs the loop of lines 104-119 hands to [check_image_url] on
    [images], in order, and the exception that ends it, if any: an image
    whose source is missing or empty is passed over, every other source
    stands for its [resolved] URL, and the first source that [urljoin]
    rejects ends the walk. *)
Fixpoint check_plan (self : ImageChecker) (images : list Tag)
  : list string * option exn :=
  match images with
  | [] => ([], None)
  | img :: rest =>
      let src := Tag_get img "src" "" in
      if negb (truthy_str src) then check_plan self rest
      else
        match resolved self src with
        | inl e => ([], Some e)
        | inr u => let '(us, r) := check_plan self rest in (u :: us, r)
        end
  end.

(** [check_image_url] on each URL of a list, one after the other. *)
Fixpoint check_all (self : ImageChecker) (urls : list string) : M unit :=
  match urls with
  | [] => ret tt
  | u :: us => bind (check_image_url self u) (fun _ => check_all self us)
  end.

(** The line that closes a cycle. *)
Definition closing_line (e : event) : Prop :=
  e = ELog INFO all_ok_line \/ exists msg, e = website_error_line msg.

Definition starting_line : event := ELog INFO "Starting image check...".

(** The trace of [n] iterations of the loop of [main]: each one logs the
    start, fetches the page, checks images, logs the closing line and
    sleeps. *)
Inductive loop_trace (checker : ImageChecker) : nat -> list event -> Prop :=
| loop_trace_end : loop_trace checker 0 []
| loop_trace_cycle (n : nat) (mid : list event) (closing : event)
    (rest : list event) :
    Forall check_event mid ->
    closing_line closing ->
    loop_trace checker n rest ->
    loop_trace checker (S n)
      (starting_line :: EGet (url checker) :: mid
       ++ closing :: ESleep 3600 :: rest).

(** The traces of a notification with message [msg]: the dialogue stops at
    the first SMTP call that raises, QUIT follows unless the connection
    failed, and one log line closes it. *)
Definition smtp_dialogue (self : ImageChecker) (msg : Message)
    (new : list event) : Prop :=
  let connect := SMTP_connect (smtp_server self) (smtp_port self) in
  let login := SMTP_login (email_sender self) (email_password self) in
  (exists e, new = [ESmtp connect (Some e); email_error_line e]) \/
  (exists e q,
     new = [ESmtp connect None; ESmtp SMTP_starttls (Some e);
            ESmtp SMTP_quit q; email_error_line (default e q)]) \/
  (exists e q,
     new = [ESmtp connect None; ESmtp SMTP_starttls None;
            ESmtp login (Some e); ESmtp SMTP_quit q;
            email_error_line (default e q)]) \/
  (exists e q,
     new = [ESmtp connect None; ESmtp SMTP_starttls None; ESmtp login None;
            ESmtp (SMTP_send_message msg) (Some e); ESmtp SMTP_quit q;
            email_error_line (default e q)]) \/
  (exists e,
     new = [ESmtp connect None; ESmtp SMTP_starttls None; ESmtp login None;
            ESmtp (SMTP_send_message msg) None; ESmtp SMTP_quit (Some e);
            email_error_line e]) \/
  new = [ESmtp connect None; ESmtp SMTP_starttls None; ESmtp login None;
         ESmtp (SMTP_send_message msg) None; ESmtp SMTP_quit None;
         email_sent_line].

End Plans.

(** ** Concrete worlds *)

Module Scenario.

Local Open Scope string_scope.

Definition page_url : string := "https://tutor4science.com/".
Definition logo_url : string := "https://tutor4science.com/logo.png".
Definition banner_url : string := "https://cdn.example.com/banner.jpg".
Definition hero_url : string := "https://tutor4science.com/hero.jpg".
Definition cut_url : string := "https://tutor4science.com/cut.jpg".
Definition inline_src : string := "data:image/png;base64,iVBORw0KGgo=".

(** [<img src="...">] and [<img>]. *)
Definition img_tag (src : string) : Tag := {| attrs := {[ "src" := src ]} |}.
Definition bare_tag : Tag := {| attrs := ∅ |}.

Definition full_env : gmap string string :=
  {[ "EMAIL_SENDER" := "monitor@example.com";
     "EMAIL_APP_PASSWORD" := "app-password";
     "EMAIL_RECEIVER" := "owner@example.com" ]}.

Definition ok_page (body : string) : exn + Response :=
  inr {| status_code := 200; text := body; content := body |}.

(** The web: the page answers [page]; the logo is a 50x50 image, the hero a
    1200x800 one, the cut image a truncated file, the banner a 500; every
    other host times out. *)
Definition web (page : exn + Response) (u : string) (w : unit)
  : (exn + Response) * unit :=
  if String.eqb u page_url then (page, w)
  else if String.eqb u logo_url then (ok_page "logo", w)
  else if String.eqb u hero_url then (ok_page "hero", w)
  else if String.eqb u cut_url then (ok_page "cut", w)
  else if String.eqb u banner_url then
    (inr {| status_code := 500; text := ""; content := "" |}, w)
  else (inl "Connection timed out", w).

Definition decode (bytes : string) : exn + PILImage :=
  if String.eqb bytes "logo" then inr {| size := (50, 50); verify := None |}
  else if String.eqb bytes "hero" then
    inr {| size := (1200, 800); verify := None |}
  else if String.eqb bytes "cut" then
    inr {| size := (640, 480); verify := Some "Truncated File Read" |}
  else inl "cannot identify image file".

(** The markup ["home"] holds five images; any other markup holds none. *)
Definition parse (markup : string) : exn + list Tag :=
  if String.eqb markup "home" then
    inr [img_tag "/logo.png"; img_tag banner_url; img_tag inline_src;
         bare_tag; img_tag ""]
  else if String.eqb markup "odd" then inr [img_tag "//["; img_tag hero_url]
  else inr [].

(** [urljoin] on the sources above. *)
Definition join (base rel : string) : exn + string :=
  if String.eqb rel "//[" then inl "Invalid IPv6 URL"
  else if String.prefix "/" rel
       then inr (base +:+ substring 1 (String.length rel - 1) rel)
       else inr (base +:+ rel).

Definition libs (env : gmap string string) (page : exn + Response)
    (mail : smtp_op -> option exn) : Libs :=
  {| World := unit;
     os_environ := env;
     requests_get := web page;
     Image_open := decode;
     soup_find_all_img := parse;
     urljoin := join;
     smtp := fun op w => (mail op, w);
     time_sleep := fun _ w => w |}.

Definition mail_ok (op : smtp_op) : option exn := None.

Definition mail_refused (op : smtp_op) : option exn :=
  match op with
  | SMTP_login _ _ => Some "Username and Password not accepted"
  | _ => None
  end.

(** The page is up and serves the markup ["home"]. *)
Definition healthy : Libs := libs full_env (ok_page "home") mail_ok.

(** The page fetch times out. *)
Definition page_down : Libs :=
  libs full_env (inl "Read timed out") mail_ok.

(** The page answers 404 with an error body without images. *)
Definition page_404 : Libs :=
  libs full_env
    (inr {| status_code := 404; text := "Not Found"; content := "Not Found" |})
    mail_ok.

(** The page is up and its first image has a source that [urljoin]
    rejects. *)
Definition odd_page : Libs := libs full_env (ok_page "odd") mail_ok.

(** The mail server refuses the login. *)
Definition mail_down : Libs := libs full_env (ok_page "home") mail_refused.

(** No recipient is configured. *)
Definition no_receiver : Libs :=
  libs (delete "EMAIL_RECEIVER" full_env) (ok_page "home") mail_ok.

Definition checker : ImageChecker :=
  {| url := page_url;
     email_sender := Some "monitor@example.com";
     email_password := Some "app-password";
     email_receiver := Some "owner@example.com";
     smtp_server := "smtp.gmail.com";
     smtp_port := 587 |}.

(** The state with world [w] and trace [evs], and the state a run starts
    from. *)
Definition after (L : Libs) (w : World) (evs : list event) : state :=
  {| world := w; events := evs |}.

Definition start (L : Libs) (w : World) : state := after L w [].

(** The state after one cycle on the healthy page: the page and the two
    linked images were fetched and the all-clear line logged. *)
Definition healthy_end : state :=
  after healthy tt
    [EGet page_url; EGet logo_url; EGet banner_url; ELog INFO all_ok_line].

(** The images of the markup ["home"], and two records. *)
Definition home_images : list Tag :=
  [img_tag "/logo.png"; img_tag banner_url; img_tag inline_src;
   bare_tag; img_tag ""].

Definition two_broken : list broken_record :=
  [(hero_url, Some 1200, Some 800); (cut_url, Some 640, Some 480)].

(** One record, of the hero image. *)
Definition hero_broken : list broken_record :=
  [(hero_url, Some 1200, Some 800)].

(** The dialogue of a notification of that record with a mail server that
    accepts everything. *)
Definition hero_dialogue : list event :=
  [ESmtp (SMTP_connect "smtp.gmail.com" 587) None;
   ESmtp SMTP_starttls None;
   ESmtp (SMTP_login (Some "monitor@example.com") (Some "app-password")) None;
   ESmtp (SMTP_send_message (compose checker hero_broken)) None;
   ESmtp SMTP_quit None;
   email_sent_line].

End Scenario.

(** * Proofs *)

Section MonadRules.

Context {L : Libs}.

Lemma run_spec_ret {A} (a : A) (Q : list event -> exn + A -> Prop) :
  Q [] (inr a) -> run_spec (ret a) Q.
Proof. intros HQ s. exists []. cbn. now rewrite app_nil_r. Qed.

Lemma run_spec_lift {A} (r : exn + A) (Q : list event -> exn + A -> Prop) :
  Q [] r -> run_spec (lift r) Q.
Proof. intros HQ s. exists []. cbn. now rewrite app_nil_r. Qed.

Lemma run_spec_emit (e : event) (Q : list event -> exn + unit -> Prop) :
  Q [e] (inr tt) -> run_spec (emit e) Q.
Proof. intros HQ s. exists [e]. cbn. auto. Qed.

Lemma run_spec_get (u : string) (Q : list event -> exn + Response -> Prop) :
  (forall r, Q [EGet u] r) -> run_spec (get u) Q.
Proof.
  intros HQ s. exists [EGet u]. unfold get.
  destruct (requests_get u (world s)) as [r w]. cbn. auto.
Qed.

Lemma run_spec_bind {A B} (m : M A) (k : A -> M B)
    (Q1 : list event -> exn + A -> Prop) (Q : list event -> exn + B -> Prop) :
  run_spec m Q1 ->
  (forall n a, Q1 n (inr a) -> run_spec (k a) (fun n' r => Q (n ++ n') r)) ->
  (forall n e, Q1 n (inl e) -> Q n (inl e)) ->
  run_spec (bind m k) Q.
Proof.
  intros Hm Hk He s. unfold bind.
  destruct (Hm s) as (n & Hev & HQ1).
  destruct (m s) as [[e | a] s1]; cbn in *.
  - exists n. auto.
  - destruct (Hk n a HQ1 s1) as (n' & Hev' & HQ).
    exists (n ++ n'). rewrite Hev', Hev, app_assoc. auto.
Qed.

Lemma run_spec_try {A} (m : M A) (h : exn -> M A)
    (Q1 Q : list event -> exn + A -> Prop) :
  run_spec m Q1 ->
  (forall n a, Q1 n (inr a) -> Q n (inr a)) ->
  (forall n e, Q1 n (inl e) -> run_spec (h e) (fun n' r => Q (n ++ n') r)) ->
  run_spec (try_except m h) Q.
Proof.
  intros Hm Ha Hh s. unfold try_except.
  destruct (Hm s) as (n & Hev & HQ1).
  destruct (m s) as [[e | a] s1]; cbn in *.
  - destruct (Hh n e HQ1 s1) as (n' & Hev' & HQ).
    exists (n ++ n'). rewrite Hev', Hev, app_assoc. auto.
  - exists n. auto.
Qed.

Lemma run_spec_weaken {A} (m : M A) (Q1 Q : list event -> exn + A -> Prop) :
  run_spec m Q1 -> (forall n r, Q1 n r -> Q n r) -> run_spec m Q.
Proof.
  intros Hm HQ s. destruct (Hm s) as (n & Hev & H1). exists n. auto.
Qed.

(** A loop keeps an invariant of its accumulator and a property of its
    events when each iteration does. *)
Lemma run_spec_for_each {A B} (body : B -> A -> M B)
    (I : B -> Prop) (P : event -> Prop) :
  (forall acc x, I acc ->
     run_spec (body acc x)
       (fun n r => Forall P n /\
                   match r with inr a => I a | inl _ => True end)) ->
  forall xs acc, I acc ->
    run_spec (for_each xs acc body)
      (fun n r => Forall P n /\
                  match r with inr a => I a | inl _ => True end).
Proof.
  intros Hbody xs. induction xs as [| x xs IH]; intros acc Hacc; cbn [for_each].
  - apply run_spec_ret. auto.
  - eapply run_spec_bind.
    + apply (Hbody acc x Hacc).
    + intros n a [Hn Ha]. cbn beta.
      eapply run_spec_weaken; [ apply (IH a Ha) | ].
      intros n' r [Hn' Hr]. split; [ | exact Hr ].
      apply Forall_app. auto.
    + intros n e [Hn _]. auto.
Qed.

Lemma returns_try {A} (m : M A) (h : exn -> M A) :
  (forall e, returns (h e)) -> returns (try_except m h).
Proof.
  intros Hh s. unfold try_except.
  destruct (m s) as [[e | a] s1]; [ apply Hh | eauto ].
Qed.

Lemma returns_log_then_ret {A} (lvl : level) (msg : string) (a : A) :
  returns (bind (emit (ELog lvl msg)) (fun _ => ret a)).
Proof. intros s. cbn. eauto. Qed.

End MonadRules.

Lemma geb_true (a b : Z) : (a >=? b) = true -> b <= a.
Proof. rewrite Z.geb_leb. apply Z.leb_le. Qed.

Lemma geb_false (a b : Z) : (a >=? b) = false -> a < b.
Proof. rewrite Z.geb_leb. apply Z.leb_gt. Qed.

(** Events that are no SMTP call carry no email. *)
Lemma sent_emails_app (l1 l2 : list event) :
  sent_emails (l1 ++ l2) = sent_emails l1 ++ sent_emails l2.
Proof.
  induction l1 as [| e l1 IH]; cbn; [ reflexivity | ].
  destruct e as [ | | [ | | | m | ] [ | ] | ]; cbn; rewrite IH; reflexivity.
Qed.

Lemma check_events_no_email (l : list event) :
  Forall check_event l -> sent_emails l = [] /\ Forall (fun e => is_smtp e = false) l.
Proof.
  induction 1 as [| e l He _ [IH1 IH2]]; [ split; constructor | ].
  destruct e as [ | lvl | | ]; cbn in He; try contradiction;
    (split; [ exact IH1 | constructor; [ reflexivity | exact IH2 ] ]).
Qed.

(** ** The per-image check *)

Section ImageCheck.

Context {L : Libs}.

Ltac unfold_check :=
  unfold check_image_url, check_image_url_try, try_except, bind, ret, raise,
    lift, get, img_verify, logging_error, emit, logged_after in *.

(** [check_image_url] with the monad unfolded: one case per path of the
    source. *)
Lemma check_image_url_paths (self : ImageChecker) (img_url : string) (s : state) :
  check_image_url self img_url s =
  if is_base64_image self img_url then (inr (Some true, None, None), s)
  else
    let '(r, w) := requests_get img_url (world s) in
    let s1 := {| world := w; events := events s ++ [EGet img_url] |} in
    let failed e :=
      (inr (Some false, None, None),
       logged_after s1 (image_error_line img_url e)) in
    match r with
    | inl e => failed e
    | inr response =>
        if status_code response =? 200 then
          match Image_open (content response) with
          | inl e => failed e
          | inr img =>
              if (fst (size img) >=? MIN_WIDTH) && (snd (size img) >=? MIN_HEIGHT)
              then match verify img with
                   | Some e => failed e
                   | None =>
                       (inr (Some true, Some (fst (size img)),
                                        Some (snd (size img))), s1)
                   end
              else (inr (None, Some (fst (size img)), Some (snd (size img))), s1)
          end
        else (inr (Some false, None, None), s1)
    end.
Proof.
  unfold image_error_line. unfold_check.
  destruct (is_base64_image self img_url); [ reflexivity | ].
  destruct (requests_get img_url (world s)) as [[e | response] w];
    [ reflexivity | ].
  destruct (status_code response =? 200); [ | reflexivity ].
  destruct (Image_open (content response)) as [e | img]; [ reflexivity | ].
  destruct (size img) as [width height]. cbn [fst snd].
  destruct ((width >=? MIN_WIDTH) && (height >=? MIN_HEIGHT));
    [ | reflexivity ].
  destruct (verify img); reflexivity.
Qed.

(** When the [try] block raises, and with what. *)
Lemma check_image_url_try_raises (self : ImageChecker) (img_url : string)
    (s s1 : state) (e : exn) :
  check_image_url_try self img_url s = (inl e, s1) <->
  is_base64_image self img_url = false /\
  exists w,
    s1 = {| world := w; events := events s ++ [EGet img_url] |} /\
    (requests_get img_url (world s) = (inl e, w) \/
     exists response,
       requests_get img_url (world s) = (inr response, w) /\
       status_code response = 200 /\
       (Image_open (content response) = inl e \/
        exists img,
          Image_open (content response) = inr img /\
          MIN_WIDTH <= fst (size img) /\ MIN_HEIGHT <= snd (size img) /\
          verify img = Some e)).
Proof.
  unfold_check.
  destruct (is_base64_image self img_url).
  { split; [ discriminate | intros [? _]; discriminate ]. }
  destruct (requests_get img_url (world s)) as [[e0 | response] w] eqn:Hget.
  { split.
    - intros [= <- <-]. split; [ reflexivity | ]. exists w. auto.
    - intros (_ & w' & -> & [[= <- <-] | (resp & [=] & _)]). reflexivity. }
  destruct (status_code response =? 200) eqn:Hst.
  2:{ split; [ discriminate | ].
      intros (_ & w' & _ & [[=] | (resp & [= <- <-] & H200 & _)]).
      apply Z.eqb_neq in Hst. contradiction. }
  apply Z.eqb_eq in Hst.
  destruct (Image_open (content response)) as [e0 | img] eqn:Hopen.
  { split.
    - intros [= <- <-]. split; [ reflexivity | ]. exists w.
      split; [ reflexivity | ]. right. exists response. auto.
    - intros (_ & w' & -> & [[=] | (resp & [= <- <-] & _ & Hd)]).
      rewrite Hopen in Hd.
      destruct Hd as [[= <-] | (img & [=] & _)]. reflexivity. }
  destruct (size img) as [width height] eqn:Hsize. cbn [fst snd].
  destruct ((width >=? MIN_WIDTH) && (height >=? MIN_HEIGHT)) eqn:Hbig.
  2:{ split; [ discriminate | ].
      intros (_ & w' & _ & [[=] | (resp & [= <- <-] & _ & Hd)]).
      rewrite Hopen in Hd.
      destruct Hd as [[=] | (img' & [= <-] & Hw & Hh & _)].
      rewrite Hsize in Hw, Hh. cbn [fst snd] in Hw, Hh.
      apply andb_false_iff in Hbig. destruct Hbig as [Hb | Hb];
        apply geb_false in Hb; lia. }
  apply andb_true_iff in Hbig. destruct Hbig as [Hw Hh].
  apply geb_true in Hw. apply geb_true in Hh.
  destruct (verify img) as [e0 | ] eqn:Hver.
  - split.
    + intros [= <- <-]. split; [ reflexivity | ]. exists w.
      split; [ reflexivity | ]. right. exists response.
      do 2 (split; [ auto | ]). right. exists img.
      rewrite Hsize. cbn [fst snd]. auto.
    + intros (_ & w' & -> & [[=] | (resp & [= <- <-] & _ & Hd)]).
      rewrite Hopen in Hd.
      destruct Hd as [[=] | (img' & [= <-] & _ & _ & Hv)].
      rewrite Hver in Hv. injection Hv as <-. reflexivity.
  - split; [ discriminate | ].
    intros (_ & w' & _ & [[=] | (resp & [= <- <-] & _ & Hd)]).
    rewrite Hopen in Hd.
    destruct Hd as [[=] | (img' & [= <-] & _ & _ & Hv)].
    rewrite Hver in Hv. discriminate.
Qed.

(** The shape of every result of the check. *)
Lemma check_image_url_shape (self : ImageChecker) (img_url : string)
    (s s' : state) (r : check_result) :
  check_image_url self img_url s = (inr r, s') -> result_shape r.
Proof.
  rewrite check_image_url_paths. unfold result_shape.
  destruct (is_base64_image self img_url); [ intros [= <- _]; auto | ].
  destruct (requests_get img_url (world s)) as [[e | response] w];
    [ intros [= <- _]; auto | ].
  destruct (status_code response =? 200); [ | intros [= <- _]; auto ].
  destruct (Image_open (content response)) as [e | img];
    [ intros [= <- _]; auto | ].
  destruct ((fst (size img) >=? MIN_WIDTH) && (snd (size img) >=? MIN_HEIGHT))
    eqn:Hbig.
  - apply andb_true_iff in Hbig. destruct Hbig as [Hw Hh].
    apply geb_true in Hw. apply geb_true in Hh.
    destruct (verify img); intros [= <- _]; [ auto | ].
    right. left. eauto.
  - apply andb_false_iff in Hbig.
    intros [= <- _]. right. right. left. do 2 eexists.
    split; [ reflexivity | ].
    destruct Hbig as [Hb | Hb]; apply geb_false in Hb; auto.
Qed.

(** No result of the check passes the guard of the broken-image list. *)
Lemma result_shape_not_broken_main (r : check_result) :
  result_shape r -> is_broken_main r = false.
Proof.
  intros [-> | [(w & h & -> & _) | [(w & h & -> & _) | ->]]]; reflexivity.
Qed.

Lemma check_image_url_returns (self : ImageChecker) (img_url : string) :
  returns (check_image_url self img_url).
Proof. apply returns_try. intros e. apply returns_log_then_ret. Qed.

End ImageCheck.

(** ** The image loop and the cycle *)

Section Cycle.

Context {L : Libs}.

(** The check leaves only fetches and error lines, returns, and its result
    never passes the guard. *)
Lemma check_image_url_spec (self : ImageChecker) (img_url : string) :
  run_spec (check_image_url self img_url)
    (fun n r => Forall check_event n /\
                exists res, r = inr res /\ is_broken_main res = false).
Proof.
  intros s.
  destruct (check_image_url_returns self img_url s) as (res & s' & Hrun).
  pose proof (check_image_url_shape _ _ _ _ _ Hrun) as Hshape.
  apply result_shape_not_broken_main in Hshape.
  rewrite Hrun. cbn [fst snd].
  assert (exists n, events s' = events s ++ n /\ Forall check_event n)
    as (n & Hev & Hn).
  { rewrite check_image_url_paths in Hrun. unfold logged_after in Hrun.
    destruct (is_base64_image self img_url).
    { injection Hrun as _ <-. exists []. now rewrite app_nil_r. }
    destruct (requests_get img_url (world s)) as [[e | response] w];
      cbn zeta in Hrun.
    { injection Hrun as _ <-. cbn. rewrite <- app_assoc.
      eexists. split; [ reflexivity | ]. repeat constructor. }
    assert (Hone : Forall check_event [EGet img_url]) by repeat constructor.
    assert (Htwo : forall e, Forall check_event
                               [EGet img_url; image_error_line img_url e])
      by (intros; repeat constructor).
    assert (Hret : forall r0 : exn + check_result, (r0, {| world := w;
                                      events := events s ++ [EGet img_url] |})
                              = (inr res, s') ->
                   exists n, events s' = events s ++ n /\ Forall check_event n).
    { intros r0 [= _ <-]. exists [EGet img_url]. auto. }
    assert (Hfail : forall (r0 : exn + check_result) e,
               (r0, {| world := w;
                       events := (events s ++ [EGet img_url])
                                 ++ [image_error_line img_url e] |})
               = (inr res, s') ->
               exists n, events s' = events s ++ n /\ Forall check_event n).
    { intros r0 e [= _ <-]. exists [EGet img_url; image_error_line img_url e].
      cbn. rewrite <- app_assoc. auto. }
    cbn [world events] in Hrun.
    destruct (status_code response =? 200); [ | eauto ].
    destruct (Image_open (content response)) as [e | img]; [ eauto | ].
    destruct ((fst (size img) >=? MIN_WIDTH) && (snd (size img) >=? MIN_HEIGHT));
      [ | eauto ].
    destruct (verify img); eauto. }
  exists n. eauto.
Qed.

(** Lines 113-119 never add a record. *)
Lemma check_and_record_keeps (self : ImageChecker)
    (broken : list broken_record) (img_url : string) (s : state) :
  exists res s',
    check_image_url self img_url s = (inr res, s') /\
    check_and_record self broken img_url s = (inr broken, s').
Proof.
  destruct (check_image_url_returns self img_url s) as (res & s' & Hrun).
  pose proof (check_image_url_shape _ _ _ _ _ Hrun) as Hshape.
  apply result_shape_not_broken_main in Hshape.
  exists res, s'. split; [ exact Hrun | ].
  unfold check_and_record, bind. rewrite Hrun.
  destruct res as [[result width] height]. now rewrite Hshape.
Qed.

(** Checking a URL that is not inline-encoded starts by fetching that URL;
    an inline-encoded one leaves no event. *)
Lemma check_and_record_fetches (self : ImageChecker)
    (broken : list broken_record) (img_url : string) (s : state) :
  if is_base64_image self img_url
  then check_and_record self broken img_url s = (inr broken, s)
  else exists evs,
         events (snd (check_and_record self broken img_url s))
         = events s ++ EGet img_url :: evs.
Proof.
  destruct (check_and_record_keeps self broken img_url s)
    as (res & s' & Hcheck & ->).
  rewrite check_image_url_paths in Hcheck. unfold logged_after in Hcheck.
  destruct (is_base64_image self img_url).
  { injection Hcheck as _ <-. reflexivity. }
  cbn [snd].
  destruct (requests_get img_url (world s)) as [[e | response] w];
    cbn zeta in Hcheck; cbn [world events] in Hcheck.
  { injection Hcheck as _ <-. cbn. rewrite <- app_assoc. eauto. }
  destruct (status_code response =? 200);
    [ | injection Hcheck as _ <-; cbn; eauto ].
  destruct (Image_open (content response)) as [e | img].
  { injection Hcheck as _ <-. cbn. rewrite <- app_assoc. eauto. }
  destruct ((fst (size img) >=? MIN_WIDTH) && (snd (size img) >=? MIN_HEIGHT));
    [ | injection Hcheck as _ <-; cbn; eauto ].
  destruct (verify img); injection Hcheck as _ <-; cbn;
    [ rewrite <- app_assoc | ]; eauto.
Qed.

Lemma check_and_record_spec (self : ImageChecker)
    (broken : list broken_record) (img_url : string) :
  run_spec (check_and_record self broken img_url)
    (fun n r => Forall check_event n /\ r = inr broken).
Proof.
  intros s.
  destruct (check_and_record_keeps self broken img_url s)
    as (res & s' & Hcheck & Hrec).
  destruct (check_image_url_spec self img_url s) as (n & Hev & Hn & _).
  rewrite Hcheck in Hev. rewrite Hrec. cbn [fst snd] in *. eauto.
Qed.

Lemma for_body_spec (self : ImageChecker) (broken : list broken_record)
    (img : Tag) :
  run_spec (for_body self broken img)
    (fun n r => Forall check_event n /\
                match r with inr b => b = broken | inl _ => True end).
Proof.
  unfold for_body.
  destruct (negb (truthy_str (Tag_get img "src" ""))).
  { apply run_spec_ret. auto. }
  eapply run_spec_bind with (Q1 := fun n _ => n = []).
  - unfold resolve_src.
    destruct (negb _); [ apply run_spec_lift | apply run_spec_ret ]; reflexivity.
  - intros n u ->. cbn [app].
    eapply run_spec_weaken; [ apply check_and_record_spec | ].
    intros n r [Hn ->]. auto.
  - intros n e ->. auto.
Qed.

(** The loop hands back the list it started from. *)
Lemma image_loop_spec (self : ImageChecker) (images : list Tag)
    (broken : list broken_record) :
  run_spec (for_each images broken (for_body self))
    (fun n r => Forall check_event n /\
                match r with inr b => b = broken | inl _ => True end).
Proof.
  apply (run_spec_for_each (for_body self) (fun b => b = broken) check_event);
    [ | reflexivity ].
  intros acc img ->. apply for_body_spec.
Qed.

Lemma check_website_images_try_spec (self : ImageChecker) :
  run_spec (check_website_images_try self) cycle_try_post.
Proof.
  unfold check_website_images_try.
  eapply run_spec_bind with (Q1 := fun n _ => Forall check_event n).
  - apply run_spec_get. intros _. repeat constructor.
  - intros n1 response Hn1. cbn beta.
    eapply run_spec_bind with (Q1 := fun n _ => n = []).
    + apply run_spec_lift. reflexivity.
    + intros ? images ->. cbn beta. cbn [app].
      eapply run_spec_bind; [ apply (image_loop_spec self images []) | | ].
      * intros n2 broken [Hn2 ->]. cbn [truthy_list].
        eapply run_spec_bind
          with (Q1 := fun n r => n = [ELog INFO all_ok_line] /\ r = inr tt).
        -- apply run_spec_emit. auto.
        -- intros ? [] [-> _]. apply run_spec_ret. cbn.
           split; [ reflexivity | ].
           exists (n1 ++ n2). rewrite <- app_assoc.
           split; [ reflexivity | ]. apply Forall_app. auto.
        -- intros ? e [_ [=]].
      * intros n2 e [Hn2 _]. cbn. apply Forall_app. auto.
    + intros ? e ->. cbn. now rewrite app_nil_r.
  - intros n e Hn. exact Hn.
Qed.

(** Every cycle returns the empty list, after fetches and error lines and
    then either the all-clear line or the error line of the handler. *)
Lemma check_website_images_spec (self : ImageChecker) :
  run_spec (check_website_images self)
    (fun n r =>
       r = inr [] /\
       exists n', Forall check_event n' /\
         (n = n' ++ [ELog INFO all_ok_line] \/
          exists e, n = n' ++ [website_error_line e])).
Proof.
  unfold check_website_images.
  eapply run_spec_try; [ apply check_website_images_try_spec | | ].
  - intros n l (-> & n' & -> & Hn'). eauto.
  - intros n e Hn. cbn in Hn. unfold logging_error.
    eapply run_spec_bind
      with (Q1 := fun n1 r => n1 = [website_error_line e] /\ r = inr tt).
    + apply run_spec_emit. auto.
    + intros ? [] [-> _]. apply run_spec_ret. rewrite app_nil_r.
      split; [ reflexivity | ]. exists n. split; [ exact Hn | ]. right. eauto.
    + intros ? ? [_ [=]].
Qed.

Lemma check_website_images_returns (self : ImageChecker) :
  returns (check_website_images self).
Proof. apply returns_try. intros e. apply returns_log_then_ret. Qed.

(** A cycle as a statement about its run from a state. *)
Lemma check_website_images_run (self : ImageChecker) (s : state) :
  exists s' n',
    check_website_images self s = (inr [], s') /\
    Forall check_event n' /\
    (events s' = events s ++ n' ++ [ELog INFO all_ok_line] \/
     exists e, events s' = events s ++ n' ++ [website_error_line e]).
Proof.
  destruct (check_website_images_spec self s) as (n & Hev & Hr & n' & Hn' & Hn).
  destruct (check_website_images self s) as [r s']. cbn [fst snd] in *.
  subst r. exists s', n'. split; [ reflexivity | ]. split; [ exact Hn' | ].
  destruct Hn as [-> | (e & ->)]; eauto.
Qed.

(** A failed page fetch: the handler logs it and returns the empty list. *)
Lemma page_fetch_error_recovered (self : ImageChecker) (s : state)
    (e : exn) (w : World) :
  requests_get (url self) (world s) = (inl e, w) ->
  check_website_images self s =
    (inr [], {| world := w;
                events := events s ++ [EGet (url self); website_error_line e] |}).
Proof.
  intros Hget.
  unfold check_website_images, check_website_images_try, try_except, bind, get.
  rewrite Hget. cbn. now rewrite <- app_assoc.
Qed.

(** The status of the page response is never read: whatever it is, the
    cycle goes on with the text of the response. *)
Lemma page_status_not_read (self : ImageChecker) (s : state)
    (response : Response) (w : World) :
  requests_get (url self) (world s) = (inr response, w) ->
  check_website_images_try self s =
  bind (lift (soup_find_all_img (text response)))
    (fun images =>
       bind (for_each images [] (for_body self))
         (fun broken_images =>
            bind (if truthy_list broken_images
                  then send_email_notification self broken_images
                  else logging_info all_ok_line)
              (fun _ => ret broken_images)))
    {| world := w; events := events s ++ [EGet (url self)] |}.
Proof.
  intros Hget. unfold check_website_images_try at 1. unfold bind at 1, get.
  now rewrite Hget.
Qed.

(** A cycle whose [try] block raises: the handler logs the error after the
    fetches and error lines of the block, and the all-clear line is not
    logged. *)
Lemma aborted_cycle_logs_error (self : ImageChecker) (s s1 : state) (e : exn) :
  check_website_images_try self s = (inl e, s1) ->
  check_website_images self s
  = (inr [], logged_after s1 (website_error_line e)) /\
  exists new, events s1 = events s ++ new /\ Forall check_event new.
Proof.
  intros Htry. split.
  - unfold check_website_images, try_except. now rewrite Htry.
  - destruct (check_website_images_try_spec self s) as (n & Hev & Hpost).
    rewrite Htry in Hev, Hpost. cbn in Hev, Hpost. eauto.
Qed.

(** The loop goes on to its next iteration whatever the cycle met. *)
Lemma main_loop_continues (checker : ImageChecker) (n : nat) (s : state) :
  exists s1,
    check_website_images checker
      (logged_after s (ELog INFO "Starting image check...")) = (inr [], s1) /\
    main_loop checker (S n) s =
    main_loop checker n
      {| world := time_sleep 3600 (world s1);
         events := events s1 ++ [ESleep 3600] |}.
Proof.
  destruct (check_website_images_run checker
              (logged_after s (ELog INFO "Starting image check...")))
    as (s1 & _ & Hrun & _).
  exists s1. split; [ exact Hrun | ].
  cbn [main_loop]. unfold bind, logging_info, emit, sleep.
  unfold logged_after in Hrun. now rewrite Hrun.
Qed.

Lemma main_loop_returns (checker : ImageChecker) (n : nat) :
  returns (main_loop checker n).
Proof.
  induction n as [| n IH]; intros s; [ cbn; eauto | ].
  destruct (main_loop_continues checker n s) as (s1 & _ & ->). apply IH.
Qed.

End Cycle.

(** ** The notification *)

Section Notification.

Context {L : Libs}.

Lemma append_assoc (s1 s2 s3 : string) :
  (s1 +:+ s2) +:+ s3 = s1 +:+ (s2 +:+ s3).
Proof.
  induction s1 as [| c s1 IH]; [ reflexivity | ].
  change (String c ((s1 +:+ s2) +:+ s3) = String c (s1 +:+ (s2 +:+ s3))).
  now rewrite IH.
Qed.

Lemma append_empty_r (s : string) : s +:+ "" = s.
Proof.
  induction s as [| c s IH]; [ reflexivity | ].
  change (String c (s +:+ "") = String c s). now rewrite IH.
Qed.

Lemma body_loop (broken_images : list broken_record) (body : string) :
  fold_left (fun body r => body +:+ record_line r) broken_images body
  = body +:+ record_lines broken_images.
Proof.
  revert body. induction broken_images as [| r l IH]; intros body; cbn.
  - now rewrite append_empty_r.
  - rewrite IH. unfold record_lines. now rewrite append_assoc.
Qed.

Lemma email_body_lines (broken_images : list broken_record) :
  email_body broken_images = body_header +:+ record_lines broken_images.
Proof. apply body_loop. Qed.

Lemma send_email_empty (self : ImageChecker) (s : state) :
  send_email_notification self [] s = (inr tt, s).
Proof. reflexivity. Qed.

Ltac smtp_step :=
  match goal with
  | |- context [smtp ?op ?w] =>
      let r := fresh "r" in
      let w' := fresh "w" in
      destruct (smtp op w) as [[r | ] w'] eqn:?; cbn [world events]
  end.

Ltac trace_done :=
  eexists _, _; split; [ reflexivity | ]; cbn [events];
  repeat rewrite <- app_assoc; cbn [app];
  split; [ reflexivity | ]; cbn [sent_emails].

(** A non-empty list: the message is composed once and goes out at most
    once; when it does not go out, the handler logs why. *)
Lemma send_email_outcomes (self : ImageChecker) (r0 : broken_record)
    (rest : list broken_record) (s : state) :
  exists s' new,
    send_email_notification self (r0 :: rest) s = (inr tt, s') /\
    events s' = events s ++ new /\
    (sent_emails new = [compose self (r0 :: rest)] \/
     sent_emails new = [] /\ exists e, In (email_error_line e) new).
Proof.
  unfold send_email_notification. cbn [truthy_list negb].
  unfold try_except, with_SMTP, bind, smtp_call, logging_info, logging_error,
    emit, email_error_line.
  smtp_step.
  { trace_done. right. split; [ reflexivity | ]. exists r. cbn. auto. }
  smtp_step.
  { smtp_step; trace_done; right; (split; [ reflexivity | ]);
      eexists; cbn; eauto 6. }
  smtp_step.
  { smtp_step; trace_done; right; (split; [ reflexivity | ]);
      eexists; cbn; eauto 8. }
  smtp_step.
  { smtp_step; trace_done; right; (split; [ reflexivity | ]);
      eexists; cbn; eauto 10. }
  smtp_step; trace_done; left; reflexivity.
Qed.

(** A call with a non-empty list shows in the trace: it starts by opening
    the SMTP connection. *)
Lemma send_email_connects (self : ImageChecker) (r0 : broken_record)
    (rest : list broken_record) (s : state) :
  exists raised evs,
    events (snd (send_email_notification self (r0 :: rest) s))
    = events s
      ++ ESmtp (SMTP_connect (smtp_server self) (smtp_port self)) raised :: evs.
Proof.
  unfold send_email_notification. cbn [truthy_list negb].
  unfold try_except, with_SMTP, bind, smtp_call, logging_info, logging_error,
    emit.
  smtp_step;
    [ | smtp_step; [ smtp_step | smtp_step; [ smtp_step | smtp_step;
                                              [ smtp_step | smtp_step ] ] ] ];
    cbn [snd events]; repeat rewrite <- app_assoc; cbn [app]; eauto.
Qed.

(** When no SMTP call raises, the whole dialogue runs. *)
Lemma send_email_dialogue (self : ImageChecker) (r0 : broken_record)
    (rest : list broken_record) (s : state) :
  (forall op w, fst (smtp op w) = None) ->
  exists s',
    send_email_notification self (r0 :: rest) s = (inr tt, s') /\
    events s' =
      events s ++
      [ESmtp (SMTP_connect (smtp_server self) (smtp_port self)) None;
       ESmtp SMTP_starttls None;
       ESmtp (SMTP_login (email_sender self) (email_password self)) None;
       ESmtp (SMTP_send_message (compose self (r0 :: rest))) None;
       ESmtp SMTP_quit None;
       email_sent_line].
Proof.
  intros Hok.
  assert (Hcall : forall op st,
             smtp_call op st =
             (inr tt, {| world := snd (smtp op (world st));
                         events := events st ++ [ESmtp op None] |})).
  { intros op st. unfold smtp_call. specialize (Hok op (world st)).
    destruct (smtp op (world st)) as [r w]. cbn in Hok. now subst r. }
  unfold send_email_notification. cbn [truthy_list negb].
  unfold try_except, with_SMTP, bind, logging_info, emit, email_sent_line.
  repeat (rewrite Hcall; cbn [world events]).
  eexists. split; [ reflexivity | ]. cbn [events].
  repeat rewrite <- app_assoc. reflexivity.
Qed.

Ltac smtp_case :=
  match goal with
  | |- context [smtp ?op ?w] =>
      let r := fresh "r" in
      let w' := fresh "w" in
      destruct (smtp op w) as [[r | ] w'] eqn:?; cbn [world events]
  end.

Ltac dialogue_done :=
  eexists _, _; split; [ reflexivity | ]; cbn [events];
  repeat rewrite <- app_assoc; cbn [app];
  split; [ reflexivity | ]; unfold smtp_dialogue; cbn zeta.

Ltac pick_raised :=
  match goal with
  | |- context [ESmtp _ (Some ?a) :: ESmtp SMTP_quit ?b :: _] =>
      exists a, b; reflexivity
  end.

(** Every notification with a non-empty list returns and leaves one of the
    six dialogues. *)
Lemma send_email_dialogues (self : ImageChecker) (r0 : broken_record)
    (rest : list broken_record) (s : state) :
  exists s' new,
    send_email_notification self (r0 :: rest) s = (inr tt, s') /\
    events s' = events s ++ new /\
    smtp_dialogue self (compose self (r0 :: rest)) new.
Proof.
  unfold send_email_notification. cbn [truthy_list negb].
  unfold try_except, with_SMTP, bind, smtp_call, logging_info, logging_error,
    emit.
  smtp_case.
  { dialogue_done. left. eexists. reflexivity. }
  smtp_case.
  { smtp_case; dialogue_done; right; left;
      pick_raised. }
  smtp_case.
  { smtp_case; dialogue_done; do 2 right; left;
      pick_raised. }
  smtp_case.
  { smtp_case; dialogue_done; do 3 right; left;
      pick_raised. }
  smtp_case; dialogue_done; do 4 right;
    [ left; eexists; reflexivity | right; reflexivity ].
Qed.

End Notification.

(** * The claims *)

Section Claims.

Context {L : Libs}.

Lemma base64_src_not_empty (self : ImageChecker) (img_url : string) :
  is_base64_image self img_url = true ->
  truthy_str img_url = true /\
  startswith_any img_url ["http://"; "https://"; "data:image"] = true.
Proof.
  unfold is_base64_image, startswith_any. cbn [existsb]. intros Hpre.
  split; [ | now rewrite Hpre, !orb_true_r ].
  destruct img_url; [ discriminate | reflexivity ].
Qed.

(** C1: an image whose check yields the failure outcome [(False, None,
    None)] is not added to the broken-image list by the loop body; the list
    a cycle returns holds no record of it and the cycle sends no email that
    could name it. *)
Theorem failed_image_not_reported (self : ImageChecker) (img_url : string)
    (broken : list broken_record) (s s' : state) :
  check_image_url self img_url s = (inr (Some false, None, None), s') ->
  check_and_record self broken img_url s = (inr broken, s') /\
  forall s0, exists l s1 new,
    check_website_images self s0 = (inr l, s1) /\
    (forall width height, ~ In (img_url, width, height) l) /\
    events s1 = events s0 ++ new /\
    (forall m, ~ In m (sent_emails new)).
Proof.
  intros Hfail. split.
  - unfold check_and_record, bind. now rewrite Hfail.
  - intros s0.
    destruct (check_website_images_run self s0)
      as (s1 & n' & Hrun & Hn' & Hev).
    destruct (check_events_no_email n' Hn') as [Hsent _].
    assert (exists new, events s1 = events s0 ++ new /\ sent_emails new = [])
      as (new & Hnew & Hmail).
    { destruct Hev as [Hev | [e Hev]]; eexists; (split; [ exact Hev | ]);
        rewrite sent_emails_app, Hsent; reflexivity. }
    exists [], s1, new. rewrite Hmail. cbn. auto.
Qed.

(** C2: in every cycle, from every state, [check_website_images] returns the
    empty list and makes no SMTP call, so no email leaves; a check whose
    first component is [False] has no width and no height; the guard of
    the list asks for [False] with a non-zero width and height of at least
    200; and [send_email_notification] on a non-empty list would show in
    the trace as an SMTP connection. *)
Theorem broken_images_always_empty (self : ImageChecker) (s : state) :
  (exists s' new,
     check_website_images self s = (inr [], s') /\
     events s' = events s ++ new /\
     Forall (fun e => is_smtp e = false) new /\
     sent_emails new = []) /\
  (forall img_url s0,
     match fst (check_image_url self img_url s0) with
     | inr (Some false, width, height) => width = None /\ height = None
     | _ => True
     end) /\
  (forall result width height,
     is_broken_main (result, width, height) = true <->
     result = Some false /\
     exists w h, width = Some w /\ height = Some h /\
                 w <> 0 /\ h <> 0 /\ MIN_WIDTH <= w /\ MIN_HEIGHT <= h) /\
  (forall r0 rest s0, exists raised evs,
     events (snd (send_email_notification self (r0 :: rest) s0))
     = events s0
       ++ ESmtp (SMTP_connect (smtp_server self) (smtp_port self)) raised
          :: evs).
Proof.
  split; [ | split; [ | split; [ | apply send_email_connects ] ] ].
  - destruct (check_website_images_run self s) as (s' & n' & Hrun & Hn' & Hev).
    destruct (check_events_no_email n' Hn') as [Hsent Hquiet].
    exists s'.
    destruct Hev as [Hev | [e Hev]]; eexists; (split; [ exact Hrun | ]);
      (split; [ exact Hev | ]);
      (split; [ apply Forall_app; split; [ exact Hquiet | repeat constructor ]
              | rewrite sent_emails_app, Hsent; reflexivity ]).
  - intros img_url s0.
    destruct (check_image_url_returns self img_url s0) as (res & s1 & Hrun).
    pose proof (check_image_url_shape _ _ _ _ _ Hrun) as Hshape.
    rewrite Hrun. cbn [fst].
    destruct Hshape as [-> | [(w & h & -> & _) | [(w & h & -> & _) | ->]]];
      auto.
  - intros result width height. unfold is_broken_main, truthy_opt_int. split.
    + destruct result as [[ | ] | ]; try discriminate.
      destruct width as [w | ]; [ | discriminate ].
      destruct height as [h | ]; [ | cbn; rewrite andb_false_r; discriminate ].
      rewrite !andb_true_iff, !negb_true_iff, !Z.eqb_neq.
      intros [[Hw Hh] [Hgw Hgh]]. apply geb_true in Hgw. apply geb_true in Hgh.
      split; [ reflexivity | ]. exists w, h. auto 10.
    + intros (-> & w & h & -> & -> & Hw & Hh & Hgw & Hgh).
      rewrite !andb_true_iff, !negb_true_iff, !Z.eqb_neq, !Z.geb_leb.
      rewrite !Z.leb_le. auto.
Qed.

(** C4: either the three configuration values are present and non-empty,
    construction succeeds with them and [main] runs the loop; or one of
    them is absent or empty, construction raises the configuration error,
    and [main] logs it and ends without a single cycle. *)
Theorem configuration_required :
  (present "EMAIL_SENDER" /\ present "EMAIL_APP_PASSWORD" /\
   present "EMAIL_RECEIVER" /\
   exists self,
     ImageChecker_init = inr self /\
     email_sender self = os_environ !! "EMAIL_SENDER" /\
     email_password self = os_environ !! "EMAIL_APP_PASSWORD" /\
     email_receiver self = os_environ !! "EMAIL_RECEIVER" /\
     forall cycles s, main cycles s = main_loop self cycles s)
  \/
  ((~ present "EMAIL_SENDER" \/ ~ present "EMAIL_APP_PASSWORD" \/
    ~ present "EMAIL_RECEIVER") /\
   ImageChecker_init = inl config_error /\
   forall cycles s,
     main cycles s = (inr tt, logged_after s (startup_error_line config_error))).
Proof.
  assert (Habsent : forall key, os_environ !! key = None -> ~ present key).
  { intros key Hk (v & Hv & _). congruence. }
  assert (Hempty : forall key, os_environ !! key = Some "" -> ~ present key).
  { intros key Hk (v & Hv & Hne). congruence. }
  assert (Hpresent : forall key c v,
             os_environ !! key = Some (String c v) -> present key).
  { intros key c v Hk. exists (String c v). split; [ exact Hk | discriminate ]. }
  assert (Hraise : ImageChecker_init = inl config_error ->
            forall cycles s,
              main cycles s
              = (inr tt, logged_after s (startup_error_line config_error))).
  { intros Hinit cycles s. unfold main, try_except, bind, lift.
    rewrite Hinit. reflexivity. }
  assert (Hrun : forall self, ImageChecker_init = inr self ->
            forall cycles s, main cycles s = main_loop self cycles s).
  { intros self Hinit cycles s. unfold main, try_except, bind, lift.
    rewrite Hinit.
    destruct (main_loop_returns self cycles s) as ([] & s' & ->). reflexivity. }
  unfold ImageChecker_init in *. cbn [email_sender email_password email_receiver
    forallb] in *.
  destruct (os_environ !! "EMAIL_SENDER") as [[ | c1 v1] | ] eqn:H1;
    cbn [truthy_opt_str truthy_str andb negb] in *;
    try (right; split; [ left; eauto | split; [ reflexivity | auto ] ]; fail).
  destruct (os_environ !! "EMAIL_APP_PASSWORD") as [[ | c2 v2] | ] eqn:H2;
    cbn [truthy_opt_str truthy_str andb negb] in *;
    try (right; split; [ right; left; eauto | split; [ reflexivity | auto ] ];
         fail).
  destruct (os_environ !! "EMAIL_RECEIVER") as [[ | c3 v3] | ] eqn:H3;
    cbn [truthy_opt_str truthy_str andb negb] in *;
    try (right; split; [ right; right; eauto | split; [ reflexivity | auto ] ];
         fail).
  left. do 3 (split; [ eauto | ]).
  eexists. split; [ reflexivity | ]. cbn.
  do 3 (split; [ reflexivity | ]).
  apply Hrun. reflexivity.
Qed.

(** C5: a URL that starts with [data:image] is not fetched: the check
    returns [(True, None, None)] and leaves the world and the trace as they
    were, and the loop body on an image with that source leaves the
    broken-image list as it was. *)
Theorem inline_image_never_fetched (self : ImageChecker) (img : Tag)
    (img_url : string) (broken : list broken_record) (s : state) :
  is_base64_image self img_url = true ->
  attrs img !! "src" = Some img_url ->
  check_image_url self img_url s = (inr (Some true, None, None), s) /\
  is_broken_main (Some true, None, None) = false /\
  for_body self broken img s = (inr broken, s).
Proof.
  intros Hb64 Hsrc.
  assert (Hcheck : check_image_url self img_url s
                   = (inr (Some true, None, None), s)).
  { rewrite check_image_url_paths. now rewrite Hb64. }
  split; [ exact Hcheck | ]. split; [ reflexivity | ].
  destruct (base64_src_not_empty self img_url Hb64) as [Hne Hpre].
  unfold for_body, Tag_get. rewrite Hsrc. cbn [default from_option id].
  rewrite Hne. cbn [negb].
  unfold resolve_src. rewrite Hpre. cbn [negb].
  unfold bind, ret, check_and_record, bind. rewrite Hcheck. reflexivity.
Qed.

(** C6: an image fetched with status 200 that decodes to a width or a
    height below 200 gets the result [(None, width, height)], and the
    record step leaves the broken-image list as it was. *)
Theorem small_image_ignored (self : ImageChecker) (img_url : string)
    (broken : list broken_record) (s : state)
    (response : Response) (w : World) (img : PILImage) :
  is_base64_image self img_url = false ->
  requests_get img_url (world s) = (inr response, w) ->
  status_code response = 200 ->
  Image_open (content response) = inr img ->
  fst (size img) < MIN_WIDTH \/ snd (size img) < MIN_HEIGHT ->
  let s' := {| world := w; events := events s ++ [EGet img_url] |} in
  check_image_url self img_url s
  = (inr (None, Some (fst (size img)), Some (snd (size img))), s') /\
  check_and_record self broken img_url s = (inr broken, s').
Proof.
  intros Hb64 Hget Hst Hopen Hsmall s'.
  assert (Hcheck : check_image_url self img_url s
            = (inr (None, Some (fst (size img)), Some (snd (size img))), s')).
  { rewrite check_image_url_paths, Hb64, Hget, Hst, Hopen. cbn [Z.eqb Pos.eqb].
    replace ((fst (size img) >=? MIN_WIDTH) && (snd (size img) >=? MIN_HEIGHT))
      with false; [ reflexivity | ].
    symmetry. apply andb_false_iff. rewrite !Z.geb_leb, !Z.leb_gt. exact Hsmall. }
  split; [ exact Hcheck | ].
  unfold check_and_record, bind. rewrite Hcheck. reflexivity.
Qed.

(** The loop body by cases on the source: it skips an image whose source
    is missing or empty; it hands a source that starts with [http://],
    [https://] or [data:image] to the check as it is; any other source is
    first joined to the page URL with [urljoin], and the result is what is
    checked.  The URL handed to the check is the one fetched, unless it is
    inline-encoded. *)
Lemma for_body_cases (self : ImageChecker) (broken : list broken_record)
    (img : Tag) (s : state) :
  for_body self broken img s =
  match attrs img !! "src" with
  | None => (inr broken, s)
  | Some src =>
      if decide (src = "") then (inr broken, s)
      else if startswith src "http://" || startswith src "https://"
              || startswith src "data:image"
      then check_and_record self broken src s
      else match urljoin (url self) src with
           | inr resolved => check_and_record self broken resolved s
           | inl e => (inl e, s)
           end
  end /\
  forall img_url,
    if is_base64_image self img_url
    then check_and_record self broken img_url s = (inr broken, s)
    else exists evs,
           events (snd (check_and_record self broken img_url s))
           = events s ++ EGet img_url :: evs.
Proof.
  split; [ | intros img_url; apply check_and_record_fetches ].
  unfold for_body, Tag_get.
  destruct (attrs img !! "src") as [src | ]; cbn [default from_option id]; [ | reflexivity ].
  destruct (decide (src = "")) as [-> | Hne]; [ reflexivity | ].
  destruct src as [ | c src]; [ contradiction | ]. cbn [truthy_str negb].
  unfold resolve_src, startswith_any. cbn [existsb].
  rewrite orb_false_r, orb_assoc.
  destruct (startswith (String c src) "http://"
            || startswith (String c src) "https://"
            || startswith (String c src) "data:image"); cbn [negb].
  - reflexivity.
  - unfold bind, lift.
    destruct (urljoin (url self) (String c src)); reflexivity.
Qed.

(** C8, amended: a cycle whose [try] block completes (the page fetch, the
    parse and every source resolution raise nothing) has an empty
    broken-image list, makes no SMTP call and ends by logging the
    all-clear line; [send_email_notification] on the empty list does
    nothing. *)
Theorem completed_cycle_logs_all_clear (self : ImageChecker) (s s1 : state)
    (l : list broken_record) :
  check_website_images_try self s = (inr l, s1) ->
  l = [] /\
  check_website_images self s = (inr [], s1) /\
  (exists new,
     events s1 = events s ++ new ++ [ELog INFO all_ok_line] /\
     Forall (fun e => is_smtp e = false) new /\
     sent_emails (new ++ [ELog INFO all_ok_line]) = []) /\
  send_email_notification self [] s1 = (inr tt, s1).
Proof.
  intros Htry.
  destruct (check_website_images_try_spec self s) as (n & Hev & Hpost).
  rewrite Htry in Hev, Hpost. cbn [fst snd cycle_try_post] in Hev, Hpost.
  destruct Hpost as (-> & new & -> & Hnew).
  destruct (check_events_no_email new Hnew) as [Hsent Hquiet].
  split; [ reflexivity | ]. split.
  { unfold check_website_images, try_except. now rewrite Htry. }
  split; [ | reflexivity ].
  exists new. split; [ exact Hev | ]. split; [ exact Hquiet | ].
  rewrite sent_emails_app, Hsent. reflexivity.
Qed.

(** C9, amended: for a non-empty list, [send_email_notification] composes
    one message and returns; the message goes out once, or not at all, and
    then an SMTP call of the run raised and the error is logged; it goes
    out once, and the success line is logged, whenever no SMTP call of the
    run raises.  Its plain-text body is the header followed by the lines of
    the records, one per record and in their order, each with the URL and
    the width-by-height of the record. *)
Theorem notification_sent_at_most_once (self : ImageChecker)
    (broken : list broken_record) (s : state) :
  broken <> [] ->
  exists s' new,
    send_email_notification self broken s = (inr tt, s') /\
    events s' = events s ++ new /\
    (sent_emails new = [compose self broken] \/
     sent_emails new = [] /\
     (exists op err, In (ESmtp op (Some err)) new) /\
     exists e, In (email_error_line e) new) /\
    ((forall op err, ~ In (ESmtp op (Some err)) new) ->
     sent_emails new = [compose self broken] /\ In email_sent_line new) /\
    msg_parts (compose self broken)
    = [ {| payload :=
             body_header
             +:+ fold_right (fun line rest => line +:+ rest) ""
                   (map record_line broken);
           subtype := "plain" |} ] /\
    (forall img_url width height,
       record_line (img_url, width, height)
       = "- " +:+ img_url +:+ " (size: " +:+ fmt_int width +:+ "x"
         +:+ fmt_int height +:+ ")" +:+ LF).
Proof.
  intros Hne. destruct broken as [ | r0 rest]; [ contradiction | ].
  destruct (send_email_dialogues self r0 rest s) as (s' & new & Hrun & Hev & Hd).
  exists s', new. split; [ exact Hrun | ]. split; [ exact Hev | ].
  assert (Hcases :
    (sent_emails new = [compose self (r0 :: rest)] \/
     sent_emails new = [] /\
     (exists op err, In (ESmtp op (Some err)) new) /\
     exists e, In (email_error_line e) new) /\
    ((forall op err, ~ In (ESmtp op (Some err)) new) ->
     sent_emails new = [compose self (r0 :: rest)] /\ In email_sent_line new)).
  { unfold smtp_dialogue in Hd. cbn zeta in Hd.
    destruct Hd as [(e & ->) | [(e & q & ->) | [(e & q & ->) | [(e & q & ->)
      | [(e & ->) | ->]]]]].
    - split.
      + right. split; [ reflexivity | ].
        split; [ eexists _, e; cbn; eauto | exists e; cbn; eauto ].
      + intros Hno. exfalso. eapply (Hno _ e). cbn. eauto.
    - split.
      + right. split; [ reflexivity | ].
        split; [ eexists _, e; cbn; eauto | eexists; cbn; eauto 6 ].
      + intros Hno. exfalso. eapply (Hno _ e). cbn. eauto.
    - split.
      + right. split; [ reflexivity | ].
        split; [ eexists _, e; cbn; eauto 6 | eexists; cbn; eauto 7 ].
      + intros Hno. exfalso. eapply (Hno _ e). cbn. eauto 6.
    - split.
      + right. split; [ reflexivity | ].
        split; [ eexists _, e; cbn; eauto 7 | eexists; cbn; eauto 8 ].
      + intros Hno. exfalso. eapply (Hno _ e). cbn. eauto 7.
    - split.
      + left. reflexivity.
      + intros Hno. exfalso. eapply (Hno _ e). cbn. eauto 8.
    - split.
      + left. reflexivity.
      + intros _. split; [ reflexivity | ]. cbn. auto 10. }
  destruct Hcases as [Hout Hclean].
  split; [ exact Hout | ]. split; [ exact Hclean | ].
  split; [ | reflexivity ].
  unfold compose. cbn [msg_parts]. rewrite email_body_lines. reflexivity.
Qed.

(** C10: from every state and for every URL, [check_image_url] returns a
    triple: [(True, None, None)], [(True, w, h)] with both at least 200,
    [(None, w, h)] with one below 200, or [(False, None, None)].  When its
    [try] block raises (the fetch, the decoding or the verification
    failed), the result is [(False, None, None)] and the error line is
    logged; otherwise the result is that of the block. *)
Theorem check_image_url_total (self : ImageChecker) (img_url : string)
    (s : state) :
  exists r s',
    check_image_url self img_url s = (inr r, s') /\
    result_shape r /\
    match check_image_url_try self img_url s with
    | (inl e, s1) =>
        r = (Some false, None, None) /\
        s' = logged_after s1 (image_error_line img_url e)
    | (inr r0, s1) => r = r0 /\ s' = s1
    end.
Proof.
  destruct (check_image_url_returns self img_url s) as (r & s' & Hrun).
  exists r, s'. split; [ exact Hrun | ].
  split; [ exact (check_image_url_shape _ _ _ _ _ Hrun) | ].
  unfold check_image_url, try_except in Hrun.
  destruct (check_image_url_try self img_url s) as [[e | r0] s1].
  - unfold bind, logging_error, emit, ret in Hrun.
    injection Hrun as <- <-. split; reflexivity.
  - injection Hrun as <- <-. split; reflexivity.
Qed.

End Claims.

(** * The claims on concrete worlds *)

Module Runs.

Import Scenario.

(** The checker of the scenarios is the one [__init__] builds there. *)
Example init_healthy : ImageChecker_init (L := healthy) = inr checker.
Proof. vm_compute. reflexivity. Qed.

(** The example of the specification: a 50x50 logo, a banner that answers
    500, an inline image and two images without a source. *)
Example healthy_cycle :
  check_website_images checker (start healthy tt) = (inr [], healthy_end).
Proof. vm_compute. reflexivity. Qed.

(** A source that [urljoin] rejects ends the cycle in the handler. *)
Example rejected_source_cycle :
  check_website_images checker (start odd_page tt)
  = (inr [],
     after odd_page tt [EGet page_url; website_error_line "Invalid IPv6 URL"]).
Proof. vm_compute. reflexivity. Qed.

(** Two cycles of [main] while the page is down. *)
Example main_page_down :
  events (snd (main 2 (start page_down tt)))
  = [ELog INFO "Starting image check..."; EGet page_url;
     website_error_line "Read timed out"; ESleep 3600;
     ELog INFO "Starting image check..."; EGet page_url;
     website_error_line "Read timed out"; ESleep 3600].
Proof. vm_compute. reflexivity. Qed.

(** [main] without a recipient. *)
Example main_no_receiver :
  main 3 (start no_receiver tt)
  = (inr tt, after no_receiver tt [startup_error_line config_error]).
Proof. vm_compute. reflexivity. Qed.

(** C1 on the banner, which answers 500. *)
Lemma failed_image_not_reported_witness :
  check_image_url checker banner_url (start healthy tt)
  = (inr (Some false, None, None), after healthy tt [EGet banner_url]) /\
  check_and_record checker [] banner_url (start healthy tt)
  = (inr [], after healthy tt [EGet banner_url]).
Proof.
  split; [ vm_compute; reflexivity | ].
  apply (failed_image_not_reported checker banner_url []
           (start healthy tt) (after healthy tt [EGet banner_url])).
  vm_compute. reflexivity.
Defined.

(** C3 at a page that answers 404: no error is logged; the error body is
    parsed as a page and the all-clear line is logged. *)
Theorem page_404_not_logged :
  requests_get (Libs := page_404) page_url tt
  = (inr {| status_code := 404; text := "Not Found"; content := "Not Found" |},
     tt) /\
  check_website_images checker (start page_404 tt)
  = (inr [], after page_404 tt [EGet page_url; ELog INFO all_ok_line]) /\
  forall msg,
    ~ In (ELog ERROR msg)
        (events (snd (check_website_images checker (start page_404 tt)))).
Proof.
  split; [ vm_compute; reflexivity | ].
  split; [ vm_compute; reflexivity | ].
  intros msg. vm_compute. intros [H | [H | []]]; discriminate.
Qed.

(** C5 on an inline image. *)
Lemma inline_image_never_fetched_witness :
  is_base64_image checker inline_src = true /\
  attrs (img_tag inline_src) !! "src" = Some inline_src /\
  check_image_url checker inline_src (start healthy tt)
  = (inr (Some true, None, None), start healthy tt) /\
  for_body checker [] (img_tag inline_src) (start healthy tt)
  = (inr [], start healthy tt).
Proof.
  assert (Hb64 : is_base64_image checker inline_src = true) by reflexivity.
  assert (Hsrc : attrs (img_tag inline_src) !! "src" = Some inline_src)
    by (vm_compute; reflexivity).
  split; [ exact Hb64 | ]. split; [ exact Hsrc | ].
  destruct (inline_image_never_fetched checker (img_tag inline_src)
              inline_src [] (start healthy tt) Hb64 Hsrc)
    as (Hcheck & _ & Hbody).
  split; [ exact Hcheck | exact Hbody ].
Defined.

(** C6 on the 50x50 logo. *)
Lemma small_image_ignored_witness :
  check_image_url checker logo_url (start healthy tt)
  = (inr (None, Some 50, Some 50), after healthy tt [EGet logo_url]) /\
  check_and_record checker [] logo_url (start healthy tt)
  = (inr [], after healthy tt [EGet logo_url]).
Proof.
  apply (small_image_ignored checker logo_url [] (start healthy tt)
           {| status_code := 200; text := "logo"; content := "logo" |} tt
           {| size := (50, 50); verify := None |}).
  - reflexivity.
  - vm_compute. reflexivity.
  - reflexivity.
  - vm_compute. reflexivity.
  - left. cbn. unfold MIN_WIDTH. lia.
Defined.

(** C8 as stated fails when the page fetch raises: the cycle has an empty
    broken-image list, and the all-clear line is not logged. *)
Lemma failed_cycle_logs_no_all_clear :
  check_website_images checker (start page_down tt)
  = (inr [],
     after page_down tt [EGet page_url; website_error_line "Read timed out"])
  /\
  ~ In (ELog INFO all_ok_line)
      (events (snd (check_website_images checker (start page_down tt)))).
Proof.
  split; [ vm_compute; reflexivity | ].
  vm_compute. intros [H | [H | []]]; discriminate.
Qed.

(** C8, amended, on the healthy page. *)
Lemma completed_cycle_logs_all_clear_witness :
  check_website_images_try checker (start healthy tt)
  = (inr [], healthy_end) /\
  check_website_images checker (start healthy tt) = (inr [], healthy_end).
Proof.
  pose (s1 := healthy_end).
  assert (Htry : check_website_images_try checker (start healthy tt)
                 = (inr [], s1))
    by (vm_compute; reflexivity).
  split; [ exact Htry | ].
  exact (proj1 (proj2 (completed_cycle_logs_all_clear checker
                         (start healthy tt) s1 [] Htry))).
Defined.

(** C9 as stated fails when the mail server refuses the login: the list is
    not empty and no email goes out. *)
Lemma refused_login_sends_no_email :
  hero_broken <> [] /\
  fst (send_email_notification checker hero_broken (start mail_down tt))
  = inr tt /\
  sent_emails
    (events (snd (send_email_notification checker hero_broken
                    (start mail_down tt)))) = [] /\
  In (email_error_line "Username and Password not accepted")
    (events (snd (send_email_notification checker hero_broken
                    (start mail_down tt)))).
Proof.
  split; [ discriminate | ].
  split; [ vm_compute; reflexivity | ].
  split; [ vm_compute; reflexivity | ].
  vm_compute. auto 10.
Qed.

(** C9, amended, with a mail server that accepts everything. *)
Lemma notification_sent_at_most_once_witness :
  hero_broken <> [] /\
  (forall op err, ~ In (ESmtp op (Some err)) hero_dialogue) /\
  send_email_notification checker hero_broken (start healthy tt)
  = (inr tt, after healthy tt hero_dialogue) /\
  sent_emails hero_dialogue = [compose checker hero_broken] /\
  In email_sent_line hero_dialogue.
Proof.
  assert (Hne : hero_broken <> []) by discriminate.
  assert (Hclean : forall op err, ~ In (ESmtp op (Some err)) hero_dialogue).
  { intros op err Hin. cbn in Hin.
    repeat (destruct Hin as [Hin | Hin]; [ discriminate Hin | ]). exact Hin. }
  assert (Hconc : send_email_notification checker hero_broken (start healthy tt)
                  = (inr tt, after healthy tt hero_dialogue))
    by (vm_compute; reflexivity).
  split; [ exact Hne | ]. split; [ exact Hclean | ]. split; [ exact Hconc | ].
  destruct (notification_sent_at_most_once checker hero_broken
              (start healthy tt) Hne)
    as (s' & new & Hrun & Hev & _ & Hsent & _).
  rewrite Hconc in Hrun. injection Hrun as <-.
  cbn [after start events app] in Hev. subst new.
  exact (Hsent Hclean).
Defined.

(** The body of a message with two records. *)
Example two_record_body :
  email_body [(hero_url, Some 1200, Some 800); (cut_url, Some 640, Some 480)]
  = "The following images are not rendering properly (only main content images are checked):"
    +:+ LF +:+ LF
    +:+ "- https://tutor4science.com/hero.jpg (size: 1200x800)" +:+ LF
    +:+ "- https://tutor4science.com/cut.jpg (size: 640x480)" +:+ LF.
Proof. vm_compute. reflexivity. Qed.

End Runs.

(** * Further properties of the cycle, the notification and the loop *)

Section Fetches.

Context {L : Libs}.

Lemma fetched_app (l1 l2 : list event) :
  fetched (l1 ++ l2) = fetched l1 ++ fetched l2.
Proof.
  induction l1 as [| e l1 IH]; cbn; [ reflexivity | ].
  destruct e; cbn; now rewrite IH.
Qed.

Lemma resolve_src_resolved (self : ImageChecker) (src : string) (s : state) :
  resolve_src self src s = (resolved self src, s).
Proof.
  unfold resolve_src, resolved. destruct (negb _); reflexivity.
Qed.

(** The loop over an appended list: the second part runs from where the
    first part ends, unless the first part raised. *)
Lemma for_each_app {A B} (xs ys : list A) (acc : B) (body : B -> A -> M B)
    (s : state) :
  for_each (xs ++ ys) acc body s
  = bind (for_each xs acc body) (fun acc' => for_each ys acc' body) s.
Proof.
  revert acc s. induction xs as [| x xs IH]; intros acc s; cbn [for_each app].
  - reflexivity.
  - unfold bind.
    destruct (body acc x s) as [[e | acc'] s1]; [ reflexivity | ].
    rewrite IH. reflexivity.
Qed.

(** The record step returns the list it was given and fetches the URL once,
    unless the URL is inline-encoded. *)
Lemma check_and_record_fetched (self : ImageChecker)
    (broken : list broken_record) (img_url : string) (s : state) :
  exists s',
    check_and_record self broken img_url s = (inr broken, s') /\
    fetched (events s')
    = fetched (events s)
      ++ (if is_base64_image self img_url then [] else [img_url]).
Proof.
  destruct (check_and_record_keeps self broken img_url s)
    as (res & s' & Hcheck & Hrec).
  exists s'. split; [ exact Hrec | ].
  rewrite check_image_url_paths in Hcheck. unfold logged_after in Hcheck.
  destruct (is_base64_image self img_url).
  { injection Hcheck as _ <-. now rewrite app_nil_r. }
  destruct (requests_get img_url (world s)) as [[e | response] w];
    cbn zeta in Hcheck; cbn [world events] in Hcheck.
  { injection Hcheck as _ <-. cbn [events]. now rewrite !fetched_app, app_nil_r. }
  destruct (status_code response =? 200);
    [ | injection Hcheck as _ <-; cbn [events]; now rewrite fetched_app ].
  destruct (Image_open (content response)) as [e | img].
  { injection Hcheck as _ <-. cbn [events]. now rewrite !fetched_app, app_nil_r. }
  destruct ((fst (size img) >=? MIN_WIDTH) && (snd (size img) >=? MIN_HEIGHT));
    [ | injection Hcheck as _ <-; cbn [events]; now rewrite fetched_app ].
  destruct (verify img); injection Hcheck as _ <-; cbn [events];
    rewrite !fetched_app; cbn; now rewrite ?app_nil_r.
Qed.

(** The image loop follows its plan: it raises exactly when a source is
    rejected, hands back the list it was given otherwise, and fetches the
    planned URLs in order. *)
Lemma image_loop_follows_plan (self : ImageChecker) (images : list Tag)
    (broken : list broken_record) (s : state) :
  exists s',
    for_each images broken (for_body self) s
    = (match snd (fetch_plan self images) with
       | None => inr broken
       | Some e => inl e
       end, s') /\
    fetched (events s')
    = fetched (events s) ++ fst (fetch_plan self images).
Proof.
  revert s. induction images as [| img rest IH]; intros s;
    cbn [for_each fetch_plan].
  { exists s. cbn. now rewrite app_nil_r. }
  unfold bind, for_body.
  destruct (negb (truthy_str (Tag_get img "src" ""))).
  { cbn [ret]. apply IH. }
  unfold bind at 1. rewrite resolve_src_resolved.
  destruct (resolved self (Tag_get img "src" "")) as [e | u].
  { exists s. cbn. now rewrite app_nil_r. }
  destruct (check_and_record_fetched self broken u s) as (s1 & -> & Hs1).
  destruct (IH s1) as (s' & Hloop & Hs').
  exists s'. destruct (fetch_plan self rest) as [us r]. cbn [fst snd] in *.
  split; [ exact Hloop | ].
  rewrite Hs', Hs1, <- app_assoc.
  destruct (is_base64_image self u); reflexivity.
Qed.

End Fetches.

Section SourceOrder.

Context {L : Libs}.

(** The image loop is the check of the planned URLs, one after the other:
    it raises exactly when a source is rejected and hands back the list it
    was given otherwise. *)
Lemma image_loop_checks_plan (self : ImageChecker) (images : list Tag)
    (broken : list broken_record) (s : state) :
  for_each images broken (for_body self) s
  = (match snd (check_plan self images) with
     | None => inr broken
     | Some e => inl e
     end,
     snd (check_all self (fst (check_plan self images)) s)).
Proof.
  revert s. induction images as [| img rest IH]; intros s;
    cbn [for_each check_plan].
  { reflexivity. }
  unfold bind, for_body.
  destruct (negb (truthy_str (Tag_get img "src" ""))).
  { cbn [ret]. apply IH. }
  unfold bind at 1. rewrite resolve_src_resolved.
  destruct (resolved self (Tag_get img "src" "")) as [e | u].
  { reflexivity. }
  destruct (check_and_record_keeps self broken u s) as (res & s1 & Hcheck & ->).
  rewrite IH. destruct (check_plan self rest) as [us r].
  cbn [fst snd check_all]. unfold bind. now rewrite Hcheck.
Qed.

(** C7, amended: in a cycle whose page is fetched and parsed, the sources
    of the page are handled in document order up to the first non-empty
    source that [urljoin] rejects, which ends the loop and sends the cycle
    to its handler.  The loop leaves the world and the trace as the checks
    of the planned URLs, one after the other, leave them; and on each image
    the loop body skips a missing or empty source, hands a source that
    starts with [http://], [https://] or [data:image] to the check as it
    is, and joins any other source to the page URL with [urljoin] before
    the check. *)
Theorem sources_checked_in_order (self : ImageChecker) (s : state)
    (response : Response) (w : World) (images : list Tag) :
  requests_get (url self) (world s) = (inr response, w) ->
  soup_find_all_img (text response) = inr images ->
  let s1 := {| world := w; events := events s ++ [EGet (url self)] |} in
  let checked := snd (check_all self (fst (check_plan self images)) s1) in
  for_each images [] (for_body self) s1
  = (match snd (check_plan self images) with
     | None => inr []
     | Some e => inl e
     end, checked) /\
  check_website_images self s
  = (inr [],
     logged_after checked
       (match snd (check_plan self images) with
        | None => ELog INFO all_ok_line
        | Some e => website_error_line e
        end)) /\
  forall broken img s0,
    for_body self broken img s0 =
    match attrs img !! "src" with
    | None => (inr broken, s0)
    | Some src =>
        if decide (src = "") then (inr broken, s0)
        else if startswith src "http://" || startswith src "https://"
                || startswith src "data:image"
        then check_and_record self broken src s0
        else match urljoin (url self) src with
             | inr resolved => check_and_record self broken resolved s0
             | inl e => (inl e, s0)
             end
    end.
Proof.
  intros Hget Hparse s1 checked.
  pose proof (image_loop_checks_plan self images [] s1) as Hloop.
  fold checked in Hloop.
  split; [ exact Hloop | ].
  split; [ | intros broken img s0; apply (for_body_cases self broken img s0) ].
  unfold check_website_images, try_except.
  rewrite (page_status_not_read self s response w Hget), Hparse.
  unfold bind at 1, lift. unfold bind at 1.
  fold s1. rewrite Hloop.
  destruct (snd (check_plan self images)) as [e | ]; reflexivity.
Qed.

End SourceOrder.

Section MoreCycle.

Context {L : Libs}.

(** X1: when the page is fetched and parsed, the cycle fetches the page and
    then the planned image URLs, in document order and once per
    occurrence; it returns the empty list and its last event is the
    all-clear line, or the error line of the first rejected source. *)
Theorem cycle_fetches_follow_plan (self : ImageChecker) (s : state)
    (response : Response) (w : World) (images : list Tag) :
  requests_get (url self) (world s) = (inr response, w) ->
  soup_find_all_img (text response) = inr images ->
  exists s',
    check_website_images self s = (inr [], s') /\
    fetched (events s')
    = fetched (events s) ++ url self :: fst (fetch_plan self images) /\
    exists evs,
      events s'
      = evs ++ [match snd (fetch_plan self images) with
                | None => ELog INFO all_ok_line
                | Some e => website_error_line e
                end].
Proof.
  intros Hget Hparse.
  unfold check_website_images, try_except.
  rewrite (page_status_not_read self s response w Hget), Hparse.
  unfold bind at 1, lift. unfold bind at 1.
  destruct (image_loop_follows_plan self images []
              {| world := w; events := events s ++ [EGet (url self)] |})
    as (s1 & -> & Hs1).
  cbn [events] in Hs1. rewrite fetched_app in Hs1. cbn [fetched app] in Hs1.
  destruct (snd (fetch_plan self images)) as [e | ].
  - eexists. split; [ reflexivity | ].
    cbn [events]. rewrite fetched_app, Hs1, <- !app_assoc. cbn.
    rewrite app_nil_r. split; [ reflexivity | ]. eexists. reflexivity.
  - eexists. split; [ reflexivity | ].
    cbn [events]. rewrite fetched_app, Hs1, <- !app_assoc. cbn.
    rewrite app_nil_r. split; [ reflexivity | ]. eexists. reflexivity.
Qed.

(** X2: a source that [urljoin] rejects ends the image loop: the loop
    raises from a state that does not depend on the images after it, having
    fetched only what the images before it plan. *)
Theorem rejected_source_ends_loop (self : ImageChecker) (pre : list Tag)
    (img : Tag) (src : string) (e : exn) (broken : list broken_record)
    (s : state) :
  Tag_get img "src" "" = src ->
  truthy_str src = true ->
  startswith_any src ["http://"; "https://"; "data:image"] = false ->
  urljoin (url self) src = inl e ->
  exists e' s',
    (forall post,
       for_each (pre ++ img :: post) broken (for_body self) s = (inl e', s')) /\
    fetched (events s') = fetched (events s) ++ fst (fetch_plan self pre).
Proof.
  intros Hsrc Hne Hrel Hjoin.
  destruct (image_loop_follows_plan self pre broken s) as (s1 & Hpre & Hs1).
  assert (Hbody : for_body self broken img s1 = (inl e, s1)).
  { unfold for_body. rewrite Hsrc, Hne. cbn [negb].
    unfold bind. rewrite resolve_src_resolved. unfold resolved.
    now rewrite Hrel, Hjoin. }
  destruct (snd (fetch_plan self pre)) as [e0 | ].
  - exists e0, s1. split; [ | exact Hs1 ].
    intros post. rewrite for_each_app. unfold bind. now rewrite Hpre.
  - exists e, s1. split; [ | exact Hs1 ].
    intros post. rewrite for_each_app. unfold bind at 1. rewrite Hpre.
    cbn [for_each]. unfold bind. now rewrite Hbody.
Qed.

(** X3: an image whose fetch returns a status other than 200 is dropped in
    silence: the check returns [(False, None, None)] after that one fetch,
    logs nothing, and the record step keeps the list. *)
Theorem failed_status_image_silent (self : ImageChecker) (img_url : string)
    (broken : list broken_record) (s : state) (response : Response)
    (w : World) :
  is_base64_image self img_url = false ->
  requests_get img_url (world s) = (inr response, w) ->
  status_code response <> 200 ->
  let s' := {| world := w; events := events s ++ [EGet img_url] |} in
  check_image_url self img_url s = (inr (Some false, None, None), s') /\
  check_and_record self broken img_url s = (inr broken, s').
Proof.
  intros Hb64 Hget Hst s'.
  assert (Hcheck : check_image_url self img_url s
                   = (inr (Some false, None, None), s')).
  { rewrite check_image_url_paths, Hb64, Hget.
    apply Z.eqb_neq in Hst. now rewrite Hst. }
  split; [ exact Hcheck | ].
  unfold check_and_record, bind. now rewrite Hcheck.
Qed.

(** X4: an image fetched with status 200 that decodes to at least 200 by
    200 is verified: when [verify] returns, the result is [(True, width,
    height)] and nothing is logged; when [verify] raises, the measured
    size is dropped, the result is [(False, None, None)] and the error is
    logged.  Either way the record step keeps the list. *)
Theorem large_image_verified (self : ImageChecker) (img_url : string)
    (broken : list broken_record) (s : state) (response : Response)
    (w : World) (img : PILImage) :
  is_base64_image self img_url = false ->
  requests_get img_url (world s) = (inr response, w) ->
  status_code response = 200 ->
  Image_open (content response) = inr img ->
  MIN_WIDTH <= fst (size img) ->
  MIN_HEIGHT <= snd (size img) ->
  let s1 := {| world := w; events := events s ++ [EGet img_url] |} in
  check_image_url self img_url s
  = match verify img with
    | None => (inr (Some true, Some (fst (size img)), Some (snd (size img))), s1)
    | Some e => (inr (Some false, None, None),
                 logged_after s1 (image_error_line img_url e))
    end /\
  check_and_record self broken img_url s
  = (inr broken, snd (check_image_url self img_url s)).
Proof.
  intros Hb64 Hget Hst Hopen Hw Hh s1.
  assert (Hcheck : check_image_url self img_url s
            = match verify img with
              | None => (inr (Some true, Some (fst (size img)),
                                         Some (snd (size img))), s1)
              | Some e => (inr (Some false, None, None),
                           logged_after s1 (image_error_line img_url e))
              end).
  { rewrite check_image_url_paths, Hb64, Hget, Hst, Hopen. cbn [Z.eqb Pos.eqb].
    replace ((fst (size img) >=? MIN_WIDTH) && (snd (size img) >=? MIN_HEIGHT))
      with true; [ reflexivity | ].
    symmetry. apply andb_true_iff. rewrite !Z.geb_leb, !Z.leb_le. auto. }
  split; [ exact Hcheck | ].
  destruct (check_and_record_keeps self broken img_url s)
    as (res & s' & Hrun & ->).
  now rewrite Hrun.
Qed.

(** The new events of a cycle: the page fetch, fetches and error lines of
    the images, and the closing line. *)
Lemma check_website_images_shape (self : ImageChecker) (s : state) :
  exists s' mid closing,
    check_website_images self s = (inr [], s') /\
    events s' = events s ++ EGet (url self) :: mid ++ [closing] /\
    Forall check_event mid /\
    closing_line closing.
Proof.
  unfold check_website_images, try_except.
  destruct (requests_get (url self) (world s)) as [[e | response] w] eqn:Hget.
  { exists {| world := w;
              events := events s ++ [EGet (url self); website_error_line e] |},
      [], (website_error_line e).
    pose proof (page_fetch_error_recovered self s e w Hget) as Hrun.
    unfold check_website_images, try_except in Hrun. rewrite Hrun.
    split; [ reflexivity | ]. split; [ reflexivity | ].
    split; [ constructor | right; eauto ]. }
  rewrite (page_status_not_read self s response w Hget).
  unfold bind at 1, lift.
  destruct (soup_find_all_img (text response)) as [e | images].
  { eexists _, [], (website_error_line e). cbn.
    split; [ reflexivity | ]. rewrite <- app_assoc.
    split; [ reflexivity | ]. split; [ constructor | right; eauto ]. }
  unfold bind at 1.
  destruct (image_loop_spec self images []
              {| world := w; events := events s ++ [EGet (url self)] |})
    as (mid & Hev & Hmid & Hres).
  destruct (for_each images [] (for_body self) _) as [[e | l] s1];
    cbn [fst snd events] in *.
  - eexists _, mid, (website_error_line e). cbn.
    split; [ reflexivity | ]. rewrite Hev, <- !app_assoc.
    split; [ reflexivity | ]. split; [ exact Hmid | right; eauto ].
  - subst l. cbn.
    eexists _, mid, (ELog INFO all_ok_line).
    split; [ reflexivity | ]. cbn. rewrite Hev, <- !app_assoc.
    split; [ reflexivity | ]. split; [ exact Hmid | left; reflexivity ].
Qed.

Lemma loop_trace_facts (checker : ImageChecker) (n : nat) (new : list event) :
  loop_trace checker n new ->
  sleeps new = repeat 3600 n /\ sent_emails new = [] /\
  (n <= length (fetched new))%nat.
Proof.
  assert (Hmid : forall mid, Forall check_event mid -> sleeps mid = []).
  { induction 1 as [| e l He _ IH]; [ reflexivity | ].
    destruct e as [ | [ | | ] | | ]; cbn in *; try contradiction; exact IH. }
  assert (Happ : forall l1 l2, sleeps (l1 ++ l2) = sleeps l1 ++ sleeps l2).
  { induction l1 as [| e l1 IH]; intros l2; cbn; [ reflexivity | ].
    destruct e; cbn; now rewrite IH. }
  induction 1 as [| n mid closing rest Hm Hc _ (IHs & IHm & IHf)].
  - repeat split; cbn; lia.
  - destruct (check_events_no_email mid Hm) as [Hsent _].
    cbn [sleeps sent_emails fetched starting_line].
    rewrite Happ, sent_emails_app, fetched_app, (Hmid mid Hm), Hsent.
    destruct Hc as [-> | [msg ->]]; cbn; rewrite IHs, IHm;
      (split; [ reflexivity | split; [ reflexivity | ] ]);
      rewrite length_app; cbn; lia.
Qed.

(** The loop leaves the trace of its cycles. *)
Lemma main_loop_runs (checker : ImageChecker) (n : nat) (s : state) :
  exists s' new,
    main_loop checker n s = (inr tt, s') /\
    events s' = events s ++ new /\
    loop_trace checker n new.
Proof.
  revert s. induction n as [| n IH]; intros s.
  { exists s, []. cbn. rewrite app_nil_r. repeat split. constructor. }
  destruct (main_loop_continues checker n s) as (s1 & Hrun & ->).
  destruct (check_website_images_shape checker
              (logged_after s (ELog INFO "Starting image check...")))
    as (s1' & mid & closing & Hrun' & Hev & Hmid & Hclosing).
  rewrite Hrun in Hrun'. injection Hrun' as <-.
  destruct (IH {| world := time_sleep 3600 (world s1);
                  events := events s1 ++ [ESleep 3600] |})
    as (s' & rest & Hrest & Hev' & Htrace).
  exists s', (starting_line :: EGet (url checker) :: mid
              ++ closing :: ESleep 3600 :: rest).
  split; [ exact Hrest | ].
  split; [ | constructor; assumption ].
  rewrite Hev'. cbn [events]. rewrite Hev. cbn [logged_after events].
  rewrite <- !app_assoc. cbn. rewrite <- !app_assoc. reflexivity.
Qed.

(** X7: [n] iterations of the loop of [main] return, and their trace is
    that of [n] cycles: the start line, the page fetch, the image checks,
    the closing line, then a sleep; so the loop sleeps [n] times, 3600
    seconds each time, fetches the page in every iteration and sends no
    email. *)
Theorem main_loop_trace (checker : ImageChecker) (n : nat) (s : state) :
  exists s' new,
    main_loop checker n s = (inr tt, s') /\
    events s' = events s ++ new /\
    loop_trace checker n new /\
    sleeps new = repeat 3600 n /\
    sent_emails new = [] /\
    (n <= length (fetched new))%nat.
Proof.
  destruct (main_loop_runs checker n s) as (s' & new & Hrun & Hev & Htrace).
  exists s', new. destruct (loop_trace_facts checker n new Htrace) as (? & ? & ?).
  auto 10.
Qed.

End MoreCycle.

Section MoreNotification.

Context {L : Libs}.

(** X5: in a notification, the login is attempted only right after the
    connection and STARTTLS both succeeded, with the configured sender
    and credential; the message is handed over only right after a
    successful login, and it is the composed one. *)
Theorem credentials_follow_starttls (self : ImageChecker) (r0 : broken_record)
    (rest : list broken_record) (s : state) :
  exists s' new,
    send_email_notification self (r0 :: rest) s = (inr tt, s') /\
    events s' = events s ++ new /\
    (forall pre user password raised post,
       new = pre ++ ESmtp (SMTP_login user password) raised :: post ->
       pre = [ESmtp (SMTP_connect (smtp_server self) (smtp_port self)) None;
              ESmtp SMTP_starttls None] /\
       user = email_sender self /\ password = email_password self) /\
    (forall pre msg raised post,
       new = pre ++ ESmtp (SMTP_send_message msg) raised :: post ->
       pre = [ESmtp (SMTP_connect (smtp_server self) (smtp_port self)) None;
              ESmtp SMTP_starttls None;
              ESmtp (SMTP_login (email_sender self) (email_password self)) None]
       /\ msg = compose self (r0 :: rest)).
Proof.
  destruct (send_email_dialogues self r0 rest s) as (s' & new & Hrun & Hev & Hd).
  exists s', new. split; [ exact Hrun | ]. split; [ exact Hev | ].
  unfold smtp_dialogue, email_error_line, email_sent_line in Hd. cbn zeta in Hd.
  split.
  - intros pre user password raised post Hnew.
    destruct Hd as [(e & ->) | [(e & q & ->) | [(e & q & ->) | [(e & q & ->)
      | [(e & ->) | ->]]]]];
      repeat (destruct pre as [| ? pre]; simplify_eq/=; auto).
  - intros pre msg raised post Hnew.
    destruct Hd as [(e & ->) | [(e & q & ->) | [(e & q & ->) | [(e & q & ->)
      | [(e & ->) | ->]]]]];
      repeat (destruct pre as [| ? pre]; simplify_eq/=; auto).
Qed.

(** X6: a notification with a non-empty list never raises; it makes SMTP
    calls and then logs exactly one line.  The line is the success line
    only if no SMTP call raised and the composed message went out;
    otherwise it is the error line, with the message of an SMTP call that
    raised. *)
Theorem notification_closing_line (self : ImageChecker) (r0 : broken_record)
    (rest : list broken_record) (s : state) :
  exists s' calls line,
    send_email_notification self (r0 :: rest) s = (inr tt, s') /\
    events s' = events s ++ calls ++ [line] /\
    Forall (fun e => is_smtp e = true) calls /\
    (line = email_sent_line /\
     sent_emails calls = [compose self (r0 :: rest)] /\
     Forall (fun e => exists op, e = ESmtp op None) calls
     \/
     exists e op, line = email_error_line e /\ In (ESmtp op (Some e)) calls).
Proof.
  destruct (send_email_dialogues self r0 rest s) as (s' & new & Hrun & Hev & Hd).
  exists s'. unfold smtp_dialogue in Hd. cbn zeta in Hd.
  destruct Hd as [(e & ->) | [(e & q & ->) | [(e & q & ->) | [(e & q & ->)
    | [(e & ->) | ->]]]]].
  - eexists [_], _. split; [ exact Hrun | ]. split; [ exact Hev | ].
    split; [ repeat constructor | ]. right. eexists _, _. cbn. eauto.
  - eexists [_; _; _], _. split; [ exact Hrun | ]. split; [ exact Hev | ].
    split; [ repeat constructor | ]. right.
    destruct q as [e' | ]; eexists _, _; cbn; eauto 6.
  - eexists [_; _; _; _], _. split; [ exact Hrun | ]. split; [ exact Hev | ].
    split; [ repeat constructor | ]. right.
    destruct q as [e' | ]; eexists _, _; cbn; eauto 7.
  - eexists [_; _; _; _; _], _. split; [ exact Hrun | ]. split; [ exact Hev | ].
    split; [ repeat constructor | ]. right.
    destruct q as [e' | ]; eexists _, _; cbn; eauto 8.
  - eexists [_; _; _; _; _], _. split; [ exact Hrun | ]. split; [ exact Hev | ].
    split; [ repeat constructor | ]. right. eexists _, _. cbn. eauto 9.
  - eexists [_; _; _; _; _], _. split; [ exact Hrun | ]. split; [ exact Hev | ].
    split; [ repeat constructor | ]. left.
    split; [ reflexivity | ]. split; [ reflexivity | ].
    repeat constructor; eexists; reflexivity.
Qed.

Lemma record_lines_list (r : broken_record) (broken : list broken_record) :
  In r broken ->
  exists before after,
    record_lines broken = before +:+ record_line r +:+ after.
Proof.
  induction broken as [| a l IH]; intros Hin; [ contradiction | ].
  change (record_lines (a :: l)) with (record_line a +:+ record_lines l).
  destruct Hin as [-> | Hin].
  - exists "", (record_lines l). reflexivity.
  - destruct (IH Hin) as (before & after & ->).
    exists (record_line a +:+ before), after. now rewrite append_assoc.
Qed.

(** X8: the body of the message lists every record of the list: the
    line of each record, with its URL and width-by-height, occurs in the
    body after the header. *)
Theorem body_lists_every_record (r : broken_record)
    (broken : list broken_record) :
  In r broken ->
  exists before after,
    email_body broken
    = body_header +:+ before +:+ record_line r +:+ after.
Proof.
  intros Hin. destruct (record_lines_list r broken Hin) as (before & after & H).
  exists before, after. now rewrite email_body_lines, H.
Qed.

End MoreNotification.

Section MoreMain.

Context {L : Libs}.

(** X9: [main] never raises.  Either the configuration is incomplete and
    its only event is the error line of the handler, or it runs the loop
    on a checker of the fixed page [https://tutor4science.com/] and mail
    host [smtp.gmail.com:587], and its trace is that of the requested
    number of cycles. *)
Theorem main_never_raises (cycles : nat) (s : state) :
  exists s' new,
    main cycles s = (inr tt, s') /\
    events s' = events s ++ new /\
    (ImageChecker_init = inl config_error /\
     new = [startup_error_line config_error] \/
     exists checker,
       ImageChecker_init = inr checker /\
       url checker = "https://tutor4science.com/" /\
       smtp_server checker = "smtp.gmail.com" /\
       smtp_port checker = 587 /\
       loop_trace checker cycles new).
Proof.
  unfold main, try_except, bind, lift.
  destruct ImageChecker_init as [e | checker] eqn:Hinit.
  - assert (e = config_error) as ->.
    { unfold ImageChecker_init in Hinit.
      destruct (negb _) in Hinit; congruence. }
    eexists _, _. split; [ reflexivity | ]. split; [ reflexivity | ].
    left. split; reflexivity.
  - destruct (main_loop_runs checker cycles s)
      as (s' & new & Hrun & Hev & Htrace).
    rewrite Hrun. exists s', new.
    split; [ reflexivity | ]. split; [ exact Hev | ]. right.
    exists checker. split; [ reflexivity | ].
    unfold ImageChecker_init in Hinit.
    destruct (negb _) in Hinit; [ discriminate | ].
    injection Hinit as <-. cbn. auto.
Qed.

End MoreMain.

(** * The further properties on concrete worlds *)

Module MoreRuns.

Import Scenario.

(** C7 as stated fails after a source that [urljoin] rejects: the second
    image of the page has an absolute source, and the cycle ends in its
    handler without fetching it, while the check of that URL would fetch
    it. *)
Lemma rejected_source_skips_later_source :
  requests_get (Libs := odd_page) page_url tt = (ok_page "odd", tt) /\
  soup_find_all_img (Libs := odd_page) "odd"
  = inr [img_tag "//["; img_tag hero_url] /\
  startswith hero_url "https://" = true /\
  check_website_images checker (start odd_page tt)
  = (inr [],
     after odd_page tt [EGet page_url; website_error_line "Invalid IPv6 URL"])
  /\
  ~ In (EGet hero_url) [EGet page_url; website_error_line "Invalid IPv6 URL"]
  /\
  check_image_url checker hero_url (after odd_page tt [EGet page_url])
  = (inr (Some true, Some 1200, Some 800),
     after odd_page tt [EGet page_url; EGet hero_url]).
Proof.
  split; [ reflexivity | ]. split; [ reflexivity | ].
  split; [ reflexivity | ]. split; [ vm_compute; reflexivity | ].
  split; [ | vm_compute; reflexivity ].
  intros [H | [H | []]]; discriminate.
Qed.

(** C7, amended, on the healthy page: the logo, the banner and the inline
    image are handed to the check, in that order. *)
Lemma sources_checked_in_order_witness :
  check_plan (L := healthy) checker home_images
  = ([logo_url; banner_url; inline_src], None) /\
  for_each home_images [] (for_body checker)
    (after healthy tt [EGet page_url])
  = (inr [], after healthy tt [EGet page_url; EGet logo_url; EGet banner_url])
  /\
  check_website_images checker (start healthy tt) = (inr [], healthy_end).
Proof.
  split; [ vm_compute; reflexivity | ].
  pose proof (sources_checked_in_order (L := healthy) checker (start healthy tt)
                {| status_code := 200; text := "home"; content := "home" |} tt
                home_images eq_refl eq_refl) as H.
  cbv zeta in H. destruct H as (Hloop & Hcycle & _).
  split.
  - etransitivity; [ exact Hloop | vm_compute; reflexivity ].
  - etransitivity; [ exact Hcycle | vm_compute; reflexivity ].
Defined.

(** X1 on the healthy page: the page, the logo and the banner are fetched,
    in that order. *)
Lemma cycle_fetches_follow_plan_witness :
  fetch_plan (L := healthy) checker home_images
  = ([logo_url; banner_url], None) /\
  exists s',
    check_website_images checker (start healthy tt) = (inr [], s') /\
    fetched (events s') = [page_url; logo_url; banner_url].
Proof.
  split; [ vm_compute; reflexivity | ].
  destruct (cycle_fetches_follow_plan (L := healthy) checker (start healthy tt)
              {| status_code := 200; text := "home"; content := "home" |} tt
              home_images)
    as (s' & Hrun & Hfetched & _);
    [ vm_compute; reflexivity | vm_compute; reflexivity | ].
  exists s'. split; [ exact Hrun | exact Hfetched ].
Defined.

(** X2 after the logo: the rejected source ends the loop whatever
    follows, and only the logo was fetched. *)
Lemma rejected_source_ends_loop_witness :
  urljoin (Libs := healthy) page_url "//[" = inl "Invalid IPv6 URL" /\
  exists e' s',
    (forall post,
       for_each ([img_tag "/logo.png"] ++ img_tag "//[" :: post) []
         (for_body checker) (start healthy tt) = (inl e', s')) /\
    fetched (events s') = [logo_url].
Proof.
  split; [ reflexivity | ].
  apply (rejected_source_ends_loop (L := healthy) checker
           [img_tag "/logo.png"] (img_tag "//[") "//[" "Invalid IPv6 URL" []
           (start healthy tt)).
  - vm_compute. reflexivity.
  - reflexivity.
  - reflexivity.
  - reflexivity.
Defined.

(** X3 on the banner, which answers 500. *)
Lemma failed_status_image_silent_witness :
  check_image_url checker banner_url (start healthy tt)
  = (inr (Some false, None, None), after healthy tt [EGet banner_url]) /\
  check_and_record checker two_broken banner_url (start healthy tt)
  = (inr two_broken, after healthy tt [EGet banner_url]).
Proof.
  apply (failed_status_image_silent (L := healthy) checker banner_url
           two_broken (start healthy tt)
           {| status_code := 500; text := ""; content := "" |} tt).
  - reflexivity.
  - vm_compute. reflexivity.
  - discriminate.
Defined.

(** X4 on the truncated 640x480 image, whose verification raises. *)
Lemma large_image_verified_witness :
  check_image_url checker cut_url (start healthy tt)
  = (inr (Some false, None, None),
     after healthy tt
       [EGet cut_url; image_error_line cut_url "Truncated File Read"]).
Proof.
  exact (proj1 (large_image_verified (L := healthy) checker cut_url []
                  (start healthy tt)
                  {| status_code := 200; text := "cut"; content := "cut" |} tt
                  {| size := (640, 480); verify := Some "Truncated File Read" |}
                  eq_refl eq_refl eq_refl eq_refl
                  ltac:(cbn; unfold MIN_WIDTH; lia)
                  ltac:(cbn; unfold MIN_HEIGHT; lia))).
Defined.

(** X8 on the second of two records. *)
Lemma body_lists_every_record_witness :
  In (cut_url, Some 640, Some 480) two_broken /\
  exists before after,
    email_body two_broken
    = body_header +:+ before
      +:+ record_line (cut_url, Some 640, Some 480) +:+ after.
Proof.
  assert (Hin : In (cut_url, Some 640, Some 480) two_broken)
    by (right; left; reflexivity).
  split; [ exact Hin | ].
  exact (body_lists_every_record (cut_url, Some 640, Some 480) two_broken Hin).
Defined.

End MoreRuns.
